(** * SaintsHub backend: validation, authentication and nested-deletion pipeline

    A shallow embedding of the request pipeline of the church-directory
    server: the JavaScript primitives the handlers rely on ([parseInt],
    [Array.prototype.splice], [String.prototype.split], ...), the Express
    response object, the Mongoose document store, and on top of them the
    route handlers of [src/routes/dashboardRoutes.ts], the middleware of
    [src/middleware/authenticateUser.ts], the signup schema of
    [src/utils/validationSchemas.ts] and the public listing of
    [src/controllers/dashboardController.ts]. *)

From stdpp Require Import gmap strings list.
From Stdlib Require Import ZArith Lia Ascii.
From Stdlib Require Import DecimalString.

Local Open Scope Z_scope.

(** ** JavaScript strings

    A JavaScript string is a sequence of UTF-16 code units.  Property
    names and message literals of the source are written as Rocq strings
    and injected with [js]. *)

Abbreviation jsstring := (list N).

Definition js (s : string) : jsstring :=
  N_of_ascii <$> String.list_ascii_of_string s.

(** [WhiteSpace] and [LineTerminator] code units of ECMAScript, the set
    skipped by [parseInt] and removed by [String.prototype.trim]. *)
Definition isStrWhiteSpaceChar (c : N) : bool :=
  existsb (N.eqb c)
    [0x09; 0x0A; 0x0B; 0x0C; 0x0D; 0x20; 0xA0; 0x1680; 0x2028; 0x2029;
     0x202F; 0x205F; 0x3000; 0xFEFF]%N
  || ((0x2000 <=? c) && (c <=? 0x200A))%N.

Fixpoint trimStart (s : jsstring) : jsstring :=
  match s with
  | c :: s' => if isStrWhiteSpaceChar c then trimStart s' else s
  | [] => []
  end.

Definition trimEnd (s : jsstring) : jsstring := reverse (trimStart (reverse s)).

Definition trim (s : jsstring) : jsstring := trimEnd (trimStart s).

Fixpoint startsWith (s p : jsstring) : bool :=
  match p, s with
  | [], _ => true
  | c :: p', d :: s' => (c =? d)%N && startsWith s' p'
  | _ :: _, [] => false
  end.

(** [s.split(sep)] for a one-code-unit separator: the pieces between the
    occurrences of [sep]; never the empty list. *)
Fixpoint split (sep : N) (s : jsstring) : list jsstring :=
  match s with
  | [] => [[]]
  | c :: s' =>
      if (c =? sep)%N then [] :: split sep s'
      else match split sep s' with
           | piece :: rest => (c :: piece) :: rest
           | [] => [[c]]
           end
  end.

(** ** JavaScript numbers, as far as indices go

    A number is [NaN] or an integer.  The rounding of integers beyond
    2^53 to doubles is not modelled: it never changes how an index
    compares with 0 or with an array length. *)

Inductive Num := NaN | Int (z : Z).

Definition isNaN (n : Num) : bool :=
  match n with NaN => true | Int _ => false end.

(** [a < b] and [a >= b]: every comparison with [NaN] is false. *)
Definition num_lt (a b : Num) : bool :=
  match a, b with Int x, Int y => x <? y | _, _ => false end.

Definition num_ge (a b : Num) : bool :=
  match a, b with Int x, Int y => x >=? y | _, _ => false end.

Definition isDigit (c : N) : bool := ((0x30 <=? c) && (c <=? 0x39))%N.

Fixpoint digitsPrefix (s : jsstring) : jsstring :=
  match s with
  | c :: s' => if isDigit c then c :: digitsPrefix s' else []
  | [] => []
  end.

Definition digitsValue (ds : jsstring) : Z :=
  fold_left (fun acc c => 10 * acc + (Z.of_N c - 0x30)) ds 0.

(** [parseInt(s, 10)]: leading white space is skipped, one sign is
    accepted, the longest run of decimal digits is read and whatever
    follows is ignored; without a digit the result is [NaN].  The result
    is the integer the digits spell.  That is the JavaScript number up
    to 2^53 in absolute value; beyond it JavaScript rounds to the
    nearest double, which this definition does not follow. *)
Definition parseInt (s : jsstring) : Num :=
  let input := trimStart s in
  let '(sign, rest) :=
    match input with
    | 0x2D%N :: rest => (-1, rest)
    | 0x2B%N :: rest => (1, rest)
    | _ => (1, input)
    end in
  match digitsPrefix rest with
  | [] => NaN
  | ds => Int (sign * digitsValue ds)
  end.

(** [ToIntegerOrInfinity] on our numbers. *)
Definition toInteger (n : Num) : Z :=
  match n with NaN => 0 | Int z => z end.

(** [array.splice(start, 1)]: a negative [start] counts from the end, a
    [start] past the end removes nothing, [NaN] is position 0. *)
Definition splice1 {A} (start : Num) (l : list A) : list A :=
  let len := Z.of_nat (length l) in
  let rel := toInteger start in
  let actualStart := if rel <? 0 then Z.max (len + rel) 0 else Z.min rel len in
  let deleteCount := Z.min (Z.max 1 0) (len - actualStart) in
  take (Z.to_nat actualStart) l ++ drop (Z.to_nat (actualStart + deleteCount)) l.

(** ** JavaScript values held by documents and response bodies *)

Set Warnings "-register-all".

Inductive JsValue :=
| JUndefined
| JNull
| JBool (b : bool)
| JNum (n : Z)
| JStr (s : jsstring)
| JArr (a : list JsValue)
| JObj (o : gmap string JsValue).

(** [obj[key]] on a plain object: a missing property reads [undefined]. *)
Definition getField (o : gmap string JsValue) (key : string) : JsValue :=
  default JUndefined (o !! key).

(** Truthiness, as used by [!x] and [x ? a : b]. *)
Definition truthy (v : JsValue) : bool :=
  match v with
  | JUndefined | JNull => false
  | JBool b => b
  | JNum n => negb (n =? 0)
  | JStr s => negb (bool_decide (s = []))
  | JArr _ | JObj _ => true
  end.

Definition isArray (v : JsValue) : bool :=
  match v with JArr _ => true | _ => false end.

(** [v.key] on an arbitrary value: reading a property of [undefined] or
    [null] throws a [TypeError]; arrays and strings have a [length];
    any other property of a non-object reads [undefined]. *)
Definition getProp (v : JsValue) (key : string) : option JsValue :=
  match v with
  | JUndefined | JNull => None
  | JObj o => Some (getField o key)
  | JArr a => Some (if bool_decide (key = "length") then JNum (Z.of_nat (length a)) else JUndefined)
  | JStr s => Some (if bool_decide (key = "length") then JNum (Z.of_nat (length s)) else JUndefined)
  | JBool _ | JNum _ => Some JUndefined
  end.

(** The number a value stands for inside [<] and [>=], for the values
    that can reach a comparison here. *)
Definition toNumber (v : JsValue) : Num :=
  match v with JNum n => Int n | _ => NaN end.

(** [s.replace(pat, rep)] and [s.slice(0, -1)] on message literals. *)
Definition replaceFirst (pat rep s : string) : string :=
  match String.index 0 pat s with
  | Some n =>
      String.substring 0 n s +:+ rep +:+
      String.substring (n + String.length pat)
                       (String.length s - (n + String.length pat)) s
  | None => s
  end.

Definition sliceDropLast (s : string) : string :=
  String.substring 0 (String.length s - 1) s.

(** ** The Express response and the handler monad

    A handler runs against a world made of the church collection, a log
    of the calls made to it and the response written so far.  It either
    returns or throws.  [res.status(c).json(b)] writes the head and body
    at once, so a second [json] on the same response throws
    [ERR_HTTP_HEADERS_SENT] and leaves the first response in place. *)

Abbreviation ObjectId := N.

Record Response := { res_status : Z; res_body : JsValue }.

Inductive StoreOp :=
| OpFindById (id : ObjectId)
| OpFind (projection : string)
| OpSave (id : ObjectId) (modifiedPaths : list string).

Record World := {
  churches : gmap ObjectId (gmap string JsValue);
  oplog : list StoreOp;
  sent : option Response;
  isProduction : bool
}.

Inductive Exn :=
| ERR_HTTP_HEADERS_SENT
| TypeError (message : string).

Inductive Outcome (A : Type) :=
| Returned (a : A)
| Threw (e : Exn).
Arguments Returned {A} a.
Arguments Threw {A} e.

Definition Handler (A : Type) : Type := World -> Outcome A * World.

Definition ret {A} (a : A) : Handler A := fun w => (Returned a, w).

Definition bind {A B} (m : Handler A) (k : A -> Handler B) : Handler B :=
  fun w => match m w with
           | (Returned a, w') => k a w'
           | (Threw e, w') => (Threw e, w')
           end.

Definition throw {A} (e : Exn) : Handler A := fun w => (Threw e, w).

Declare Scope handler_scope.
Delimit Scope handler_scope with handler.
Notation "x <- m ;; k" := (bind m (fun x => k))
  (at level 100, m at next level, right associativity) : handler_scope.
Notation "m ;; k" := (bind m (fun _ => k))
  (at level 100, right associativity) : handler_scope.
Local Open Scope handler_scope.

(** [if (c) { body }] with no [return] inside: control falls through. *)
Definition when (c : bool) (body : Handler unit) : Handler unit :=
  if c then body else ret tt.

Definition with_sent (r : Response) (w : World) : World :=
  {| churches := churches w; oplog := oplog w; sent := Some r;
     isProduction := isProduction w |}.

Definition res_status_json (code : Z) (body : JsValue) : Handler unit :=
  fun w => match sent w with
           | Some _ => (Threw ERR_HTTP_HEADERS_SENT, w)
           | None => (Returned tt, with_sent {| res_status := code; res_body := body |} w)
           end.

(** [res.json(b)]: the status stays at its default, 200. *)
Definition res_json (body : JsValue) : Handler unit := res_status_json 200 body.

Definition errorBody (msg : string) : JsValue := JObj {[ "error" := JStr (js msg) ]}.
Definition messageBody (msg : string) : JsValue := JObj {[ "message" := JStr (js msg) ]}.

(** ** The church collection (src/models/Space.ts)

    The schema decides what Mongoose can track.  A path declared as an
    array is hydrated as a Mongoose array, whose [splice] marks the path
    modified.  A path declared [type: Object] is a Mixed path: it holds
    plain JavaScript values, and a change made inside it is not seen by
    [save] unless [markModified] is called, which no handler does. *)

Inductive SchemaType := TString | TMixed | TArray | TObjectId | TDate.

Definition ChurchSchema : list (string * SchemaType) :=
  [ ("name", TString); ("principal", TMixed); ("location", TString);
    ("image", TString); ("banner", TArray); ("securities", TMixed);
    ("oldServices", TArray); ("liveServices", TArray); ("gallery", TArray);
    ("songs", TArray); ("logo", TString); ("user", TObjectId);
    ("createdAt", TDate) ].

Definition schemaType (path : string) : option SchemaType :=
  snd <$> List.find (fun entry => bool_decide (entry.1 = path)) ChurchSchema.

Definition isSchemaArray (path : string) : bool :=
  match schemaType path with Some TArray => true | _ => false end.

(** A hydrated document: the id it was loaded under, its fields in
    memory, and the paths Mongoose knows to be modified. *)
Record ChurchDocument := {
  doc_id : ObjectId;
  doc_fields : gmap string JsValue;
  doc_modified : list string
}.

Definition log_op (op : StoreOp) (w : World) : World :=
  {| churches := churches w; oplog := oplog w ++ [op]; sent := sent w;
     isProduction := isProduction w |}.

(** [ChurchModel.findById(id)], for an id that the cast of the request's
    text has given ([nestedDeletionRequest] below puts that cast in
    front): the stored record, hydrated, or [null].  The stored record
    is taken as hydration leaves it, defaults included; nothing is
    marked modified yet. *)
Definition findById (id : ObjectId) : Handler (option ChurchDocument) :=
  fun w =>
    (Returned ((fun fields => {| doc_id := id; doc_fields := fields; doc_modified := [] |})
                 <$> churches w !! id),
     log_op (OpFindById id) w).

(** [church.save()]: the modified paths, and only they, are written to
    the stored record; with no modified path nothing is written.  The
    call is taken to succeed: the schema's validators accept an array
    left empty, and failures of the store itself are outside the model.
    So is the version key: with a changed array Mongoose also
    increments [__v], which the records here do not follow. *)
Definition writePaths (church : ChurchDocument) (stored : gmap string JsValue)
  : gmap string JsValue :=
  foldr (fun path acc => <[path := getField (doc_fields church) path]> acc)
        stored (doc_modified church).

Definition save (church : ChurchDocument) : Handler unit :=
  fun w =>
    (Returned tt,
     {| churches := alter (writePaths church) (doc_id church) (churches w);
        oplog := oplog w ++ [OpSave (doc_id church) (doc_modified church)];
        sent := sent w;
        isProduction := isProduction w |}).

(** [church[path].splice(index, 1)] on a top-level path: the array in
    memory changes, and a Mongoose array marks its path modified. *)
Definition spliceField (church : ChurchDocument) (path : string)
    (array : list JsValue) (index : Num) : ChurchDocument :=
  {| doc_id := doc_id church;
     doc_fields := <[path := JArr (splice1 index array)]> (doc_fields church);
     doc_modified :=
       if isSchemaArray path then doc_modified church ++ [path]
       else doc_modified church |}.

(** ** Requests of the nested-deletion routes (src/routes/dashboardRoutes.ts) *)

Inductive IndexParam :=
| imageIndex | serviceIndex | deaconIndex | trusteeIndex | songIndex | liveIndex.

Definition paramName (p : IndexParam) : string :=
  match p with
  | imageIndex => "imageIndex"
  | serviceIndex => "serviceIndex"
  | deaconIndex => "deaconIndex"
  | trusteeIndex => "trusteeIndex"
  | songIndex => "songIndex"
  | liveIndex => "liveIndex"
  end.

(** [req.params]: the church id, as the ObjectId the cast of the text
    has given (a text that does not cast is the business of
    [nestedDeletionRequest], below), and the index segment of the
    matched route. *)
Record DeleteItemParams := {
  churchId : ObjectId;
  indexParams : IndexParam -> option jsstring
}.

(** [indexStr ? parseInt(indexStr, 10) : NaN]: a missing or empty
    segment is falsy. *)
Definition parseIndex (indexStr : option jsstring) : Num :=
  match indexStr with
  | Some (c :: s) => parseInt (c :: s)
  | Some [] | None => NaN
  end.

Definition invalidIndexMessage (indexParam : IndexParam) : string :=
  "Invalid " +:+ replaceFirst "Index" "" (paramName indexParam) +:+ " index".

(** The generic handler.  The first [if] has no [return]: after the 400
    for a [NaN] index the function goes on to the lookup. *)
Definition deleteNestedItem (params : DeleteItemParams) (arrayField : string)
    (indexParam : IndexParam) : Handler unit :=
  let indexStr := indexParams params indexParam in
  let index := parseIndex indexStr in
  when (isNaN index)
    (res_status_json 400 (errorBody (invalidIndexMessage indexParam))) ;;
  church <- findById (churchId params) ;;
  match church with
  | None => res_status_json 404 (errorBody "Church not found")
  | Some church =>
      let potentialArray := getField (doc_fields church) arrayField in
      match potentialArray with
      | JArr array =>
          if num_lt index (Int 0) || num_ge index (Int (Z.of_nat (length array)))
          then res_status_json 400 (errorBody (invalidIndexMessage indexParam))
          else
            let church := spliceField church arrayField array index in
            save church ;;
            res_status_json 200
              (messageBody (sliceDropLast arrayField +:+ " item deleted successfully"))
      | _ => res_status_json 500 (errorBody "Internal server error (invalid field type)")
      end
  end.

(** [x.splice(index, 1)] where [x] need not be an array. *)
Definition callSplice (v : JsValue) (index : Num) : Handler (list JsValue) :=
  match v with
  | JArr array => ret (splice1 index array)
  | _ => throw (TypeError "splice is not a function")
  end.

Definition readProp (v : JsValue) (key : string) : Handler JsValue :=
  match getProp v key with
  | Some x => ret x
  | None => throw (TypeError "Cannot read properties of undefined")
  end.

(** The deacon and trustee handlers are the same code over
    [church.securities.deacons] and [church.securities.trustees].  Of
    their four [if]s only the 404 returns. *)
Definition deleteSecuritiesItem (params : DeleteItemParams) (key : string)
    (indexParam : IndexParam) (invalidIndex dataInvalid deleted : string)
    : Handler unit :=
  let index := parseIndex (indexParams params indexParam) in
  when (isNaN index) (res_status_json 400 (errorBody invalidIndex)) ;;
  church <- findById (churchId params) ;;
  match church with
  | None => res_status_json 404 (errorBody "Church not found")
  | Some church =>
      let securities := getField (doc_fields church) "securities" in
      when (negb (truthy securities)
            || negb (isArray (default JUndefined (getProp securities key))))
        (res_status_json 400 (errorBody dataInvalid)) ;;
      members <- readProp securities key ;;
      len <- readProp members "length" ;;
      when (num_lt index (Int 0) || num_ge index (toNumber len))
        (res_status_json 400 (errorBody invalidIndex)) ;;
      spliced <- callSplice members index ;;
      (* the array sits inside the Mixed [securities] object: it changes in
         memory and no path is marked modified *)
      let church :=
        match securities with
        | JObj o =>
            {| doc_id := doc_id church;
               doc_fields := <["securities" := JObj (<[key := JArr spliced]> o)]> (doc_fields church);
               doc_modified := doc_modified church |}
        | _ => church
        end in
      save church ;;
      res_json (messageBody deleted)
  end.

(** ** Routes

    Every route below is mounted behind [authenticateUser]; the handlers
    are what runs once that middleware has called [next()].
    [catchAsync] forwards a thrown error to the global error handler,
    which answers 500 for errors it does not recognise; when a response
    is already out, its own [json] throws and the response stays as it
    is.  Of the error body only [status] and [message] are modelled. *)

Definition exnMessage (e : Exn) : string :=
  match e with
  | ERR_HTTP_HEADERS_SENT => "Cannot set headers after they are sent to the client"
  | TypeError m => m
  end.

Definition globalErrorHandler (err : Exn) : Handler unit :=
  fun w =>
    let message :=
      if isProduction w then "Something went very wrong!" else exnMessage err in
    res_status_json 500
      (JObj {[ "status" := JStr (js "error"); "message" := JStr (js message) ]}) w.

Definition catchAsync (fn : Handler unit) (w : World) : World :=
  match fn w with
  | (Returned _, w') => w'
  | (Threw e, w') => snd (globalErrorHandler e w')
  end.

Definition delete_gallery (params : DeleteItemParams) : World -> World :=
  catchAsync (deleteNestedItem params "gallery" imageIndex).

Definition delete_banner (_params : DeleteItemParams) : World -> World :=
  catchAsync (res_status_json 501 (messageBody "Banner deletion not implemented yet")).

Definition delete_past_service (params : DeleteItemParams) : World -> World :=
  catchAsync (deleteNestedItem params "oldServices" serviceIndex).

Definition delete_deacon (params : DeleteItemParams) : World -> World :=
  catchAsync (deleteSecuritiesItem params "deacons" deaconIndex
                "Invalid deacon index" "Deacons data not found or invalid"
                "Deacon deleted successfully").

Definition delete_trustee (params : DeleteItemParams) : World -> World :=
  catchAsync (deleteSecuritiesItem params "trustees" trusteeIndex
                "Invalid trustee index" "Trustees data not found or invalid"
                "Trustee deleted successfully").

Definition delete_song (params : DeleteItemParams) : World -> World :=
  catchAsync (deleteNestedItem params "songs" songIndex).

Definition delete_live (params : DeleteItemParams) : World -> World :=
  catchAsync (deleteNestedItem params "liveServices" liveIndex).

(** The request Express builds for a path whose index segment is [s]. *)
Definition paramsFor (id : ObjectId) (p : IndexParam) (s : jsstring) : DeleteItemParams :=
  {| churchId := id;
     indexParams := fun q => if bool_decide (paramName q = paramName p) then Some s else None |}.

(** A world in which the request has just arrived. *)
Definition freshWorld (store : gmap ObjectId (gmap string JsValue)) : World :=
  {| churches := store; oplog := []; sent := None; isProduction := true |}.

Definition statusOf (w : World) : option Z := res_status <$> sent w.

(** ** Authentication (src/middleware/authenticateUser.ts)

    [jwt.verify] belongs to the jsonwebtoken library and is a parameter
    of the model: it returns the decoded payload or throws an error of
    one of the library's classes.  In that library [TokenExpiredError]
    and [NotBeforeError] are subclasses of [JsonWebTokenError], which is
    what [instanceof] sees. *)

Inductive ErrorClass := JsonWebTokenError | TokenExpiredError | NotBeforeError | PlainError.

Definition superclass (c : ErrorClass) : option ErrorClass :=
  match c with
  | TokenExpiredError | NotBeforeError => Some JsonWebTokenError
  | JsonWebTokenError | PlainError => None
  end.

Definition sameClass (a b : ErrorClass) : bool :=
  match a, b with
  | JsonWebTokenError, JsonWebTokenError
  | TokenExpiredError, TokenExpiredError
  | NotBeforeError, NotBeforeError
  | PlainError, PlainError => true
  | _, _ => false
  end.

(** [err instanceof C]: [C] is the class of [err] or its superclass
    (the hierarchy is two levels deep). *)
Definition instanceOf (err c : ErrorClass) : bool :=
  sameClass err c
  || match superclass err with Some parent => sameClass parent c | None => false end.

Inductive VerifyResult :=
| Decoded (payload : JsValue)
| VerifyThrows (err : ErrorClass).

Record AppError := { message : string; statusCode : Z }.

Record User := {
  firstName : jsstring;
  lastName : jsstring;
  email : jsstring;
  role : jsstring;
  churchSelection : option jsstring;
  admin : bool
}.

(** [req.user]: the projection the authenticator leaves on the request. *)
Record ReqUser := { id : ObjectId; user_email : jsstring }.

(** What a middleware hands to [next]: nothing, an [AppError], or an
    error raised by the store (a failed cast of the id). *)
Inductive Next (A : Type) :=
| Proceed (a : A)
| Fail (e : AppError)
| CastError (value : JsValue).
Arguments Proceed {A} a.
Arguments Fail {A} e.
Arguments CastError {A} value.

Inductive AuthEvent :=
| EvVerify (token : jsstring)
| EvFindUser (id : ObjectId).

(** Step 1 of [authenticateUser]: the header must be non-empty and start
    with [Bearer]; the token is the second piece of the header split at
    spaces. *)
Definition extractToken (authorization : option jsstring) : option jsstring :=
  match authorization with
  | Some header =>
      if negb (bool_decide (header = [])) && startsWith header (js "Bearer")
      then split 0x20%N header !! 1%nat
      else None
  | None => None
  end.

Definition authenticateUser
    (verify : jsstring -> VerifyResult) (castObjectId : JsValue -> option ObjectId)
    (users : gmap ObjectId User) (authorization : option jsstring)
    : Next ReqUser * list AuthEvent :=
  match extractToken authorization with
  | None | Some [] =>
      (Fail {| message := "You are not logged in. Please log in to get access.";
               statusCode := 401 |}, [])
  | Some token =>
      match verify token with
      | VerifyThrows err =>
          (if instanceOf err JsonWebTokenError then
             Fail {| message := "Invalid token. Please log in again."; statusCode := 401 |}
           else if instanceOf err TokenExpiredError then
             Fail {| message := "Your token has expired. Please log in again.";
                     statusCode := 401 |}
           else
             Fail {| message := "Token verification failed."; statusCode := 401 |},
           [EvVerify token])
      | Decoded (JObj decoded) =>
          if bool_decide (is_Some (decoded !! "id")) then
            match castObjectId (getField decoded "id") with
            | None => (CastError (getField decoded "id"), [EvVerify token])
            | Some uid =>
                match users !! uid with
                | None =>
                    (Fail {| message := "The user belonging to this token no longer exists.";
                             statusCode := 401 |},
                     [EvVerify token; EvFindUser uid])
                | Some currentUser =>
                    (Proceed {| id := uid; user_email := email currentUser |},
                     [EvVerify token; EvFindUser uid])
                end
            end
          else
            (Fail {| message := "Invalid token payload."; statusCode := 401 |},
             [EvVerify token])
      | Decoded _ =>
          (Fail {| message := "Invalid token payload."; statusCode := 401 |},
           [EvVerify token])
      end
  end.

(** [isAdmin]: reads [req.user.id] only, fetches the stored identity
    again and decides on its [admin] field. *)
Definition isAdmin (users : gmap ObjectId User) (reqUser : option ReqUser) : Next unit :=
  match reqUser with
  | None => Fail {| message := "Authentication required."; statusCode := 401 |}
  | Some u =>
      match users !! id u with
      | None => Fail {| message := "User not found."; statusCode := 401 |}
      | Some user =>
          if negb (admin user) then
            Fail {| message := "You do not have permission to perform this action.";
                    statusCode := 403 |}
          else Proceed tt
      end
  end.

(** src/routes/adminRoutes.ts: [router.use(authenticateUser)] then
    [router.use(isAdmin)]. *)
Definition adminGate
    (verify : jsstring -> VerifyResult) (castObjectId : JsValue -> option ObjectId)
    (users : gmap ObjectId User) (authorization : option jsstring) : Next unit :=
  match fst (authenticateUser verify castObjectId users authorization) with
  | Proceed u => isAdmin users (Some u)
  | Fail e => Fail e
  | CastError v => CastError v
  end.

(** src/controllers/adminController.ts, [approveUser]: the store effect
    of [User.findByIdAndUpdate(userId, { admin: true })] on the fields
    of a user kept here, for an id the cast has given
    ([approveUserRequest] below puts the cast in front).  The update
    also stamps [updatedAt], which is not among these fields. *)
Definition setAdmin (u : User) : User :=
  {| firstName := firstName u; lastName := lastName u; email := email u;
     role := role u; churchSelection := churchSelection u; admin := true |}.

Definition approveUser (userId : ObjectId) (users : gmap ObjectId User)
    : gmap ObjectId User * Next unit :=
  match users !! userId with
  | None => (users, Fail {| message := "No user found with that ID"; statusCode := 404 |})
  | Some _ => (alter setAdmin userId users, Proceed tt)
  end.

(** ** Request validation (src/utils/validationSchemas.ts, src/middleware/validateRequest.ts)

    The schema combinators are those of Zod 3.  A parser reports issues
    and a status: [valid]; [dirty], when a check on a value of the right
    type failed; [aborted], when the value has the wrong type.  An
    object parses every key of its shape and is aborted as soon as one
    key is; a refinement runs only when the schema under it was not
    aborted. *)

Inductive ParseStatus := valid | dirty | aborted.

Inductive IssueCode :=
| invalid_type | too_small | invalid_string | invalid_enum_value | custom.

Record ZodIssue := {
  code : IssueCode;
  path : list string;
  issueMessage : string
}.

Record ParseReturn := {
  status : ParseStatus;
  value : JsValue;
  issues : list ZodIssue
}.

Definition Schema : Type := list string -> JsValue -> ParseReturn.

Definition mergeStatus (a b : ParseStatus) : ParseStatus :=
  match a, b with
  | aborted, _ | _, aborted => aborted
  | dirty, _ | _, dirty => dirty
  | valid, valid => valid
  end.

Definition typeName (v : JsValue) : string :=
  match v with
  | JUndefined => "undefined"
  | JNull => "null"
  | JBool _ => "boolean"
  | JNum _ => "number"
  | JStr _ => "string"
  | JArr _ => "array"
  | JObj _ => "object"
  end.

Definition invalidType (here : list string) (expected : string)
    (required_error invalid_type_error : option string) (v : JsValue) : ParseReturn :=
  let fallback :=
    match v with
    | JUndefined => "Required"
    | _ => "Expected " +:+ expected +:+ ", received " +:+ typeName v
    end in
  let msg :=
    match v with
    | JUndefined => default fallback required_error
    | _ => default fallback invalid_type_error
    end in
  {| status := aborted; value := v;
     issues := [{| code := invalid_type; path := here; issueMessage := msg |}] |}.

(** The checks chained on [z.string()]. *)
Inductive StringCheck :=
| CheckMin (n : nat) (msg : string)
| CheckEmail (msg : string)
| CheckTrim.

Fixpoint runStringChecks (isEmail : jsstring -> bool) (here : list string)
    (checks : list StringCheck) (s : jsstring) : jsstring * list ZodIssue :=
  match checks with
  | [] => (s, [])
  | CheckMin n msg :: rest =>
      let '(s', found) := runStringChecks isEmail here rest s in
      (s', if (length s <? n)%nat
           then {| code := too_small; path := here; issueMessage := msg |} :: found
           else found)
  | CheckEmail msg :: rest =>
      let '(s', found) := runStringChecks isEmail here rest s in
      (s', if isEmail s then found
           else {| code := invalid_string; path := here; issueMessage := msg |} :: found)
  | CheckTrim :: rest => runStringChecks isEmail here rest (trim s)
  end.

Definition zString (isEmail : jsstring -> bool) (required_error : option string)
    (checks : list StringCheck) : Schema :=
  fun here v =>
    match v with
    | JStr s =>
        let '(s', found) := runStringChecks isEmail here checks s in
        {| status := match found with [] => valid | _ => dirty end;
           value := JStr s'; issues := found |}
    | _ => invalidType here "string" required_error None v
    end.

(** [z.enum(values, ...)]; the text of Zod's own message for a string
    outside the enumeration is abridged. *)
Definition zEnum (values : list string) (required_error invalid_type_error : option string)
    : Schema :=
  fun here v =>
    match v with
    | JStr s =>
        if bool_decide (s ∈ js <$> values) then
          {| status := valid; value := v; issues := [] |}
        else
          {| status := aborted; value := v;
             issues := [{| code := invalid_enum_value; path := here;
                           issueMessage := "Invalid enum value" |}] |}
    | _ => invalidType here "string" required_error invalid_type_error v
    end.

Definition zOptional (inner : Schema) : Schema :=
  fun here v =>
    match v with
    | JUndefined => {| status := valid; value := JUndefined; issues := [] |}
    | _ => inner here v
    end.

(** [z.object(shape)]: every key of the shape is parsed, in order, at
    the path extended by the key; unknown keys are dropped. *)
Fixpoint parseShape (shape : list (string * Schema)) (here : list string)
    (data : gmap string JsValue) : ParseStatus * gmap string JsValue * list ZodIssue :=
  match shape with
  | [] => (valid, ∅, [])
  | (key, keyValidator) :: rest =>
      let r := keyValidator (here ++ [key]) (getField data key) in
      let '(st, obj, found) := parseShape rest here data in
      (mergeStatus (status r) st,
       match value r with
       | JUndefined => if bool_decide (is_Some (data !! key)) then <[key := JUndefined]> obj else obj
       | x => <[key := x]> obj
       end,
       issues r ++ found)
  end.

Definition zObject (shape : list (string * Schema)) : Schema :=
  fun here v =>
    match v with
    | JObj data =>
        let '(st, obj, found) := parseShape shape here data in
        {| status := st; value := JObj obj; issues := found |}
    | _ => invalidType here "object" None None v
    end.

(** [schema.refine(check, { message, path })]. *)
Definition zRefine (inner : Schema) (check : JsValue -> bool)
    (msg : string) (subpath : list string) : Schema :=
  fun here v =>
    let r := inner here v in
    match status r with
    | aborted => r
    | _ =>
        if check (value r) then r
        else {| status := dirty; value := value r;
                issues := issues r ++
                  [{| code := custom; path := here ++ subpath; issueMessage := msg |}] |}
    end.

(** [v === 'literal']. *)
Definition strictEqualsString (v : JsValue) (literal : string) : bool :=
  match v with
  | JStr s => bool_decide (s = js literal)
  | _ => false
  end.

(** The cross-field rule of [signupSchema]. *)
Definition churchSelectionRule (data : JsValue) : bool :=
  match data with
  | JObj o =>
      if strictEqualsString (getField o "role") "pastor"
         || strictEqualsString (getField o "role") "IT"
      then
        truthy (getField o "churchSelection")
        && match getField o "churchSelection" with
           | JStr s => (0 <? length (trim s))%nat
           | _ => false
           end
      else true
  | _ => true
  end.

Arguments churchSelectionRule : simpl never.

(** The fields of [body] in [signupSchema]. *)
Definition signupBodyShape (isEmail : jsstring -> bool) : list (string * Schema) :=
  [ ("firstName", zString isEmail (Some "First name is required")
                    [CheckMin 1 "First name cannot be empty"]);
    ("lastName", zString isEmail (Some "Last name is required")
                   [CheckMin 1 "Last name cannot be empty"]);
    ("email", zString isEmail (Some "Email is required")
                [CheckEmail "Invalid email address"]);
    ("password", zString isEmail (Some "Password is required")
                   [CheckMin 8 "Password must be at least 8 characters long"]);
    ("language", zEnum ["en"; "fr"] (Some "Language is required")
                   (Some "Language must be either 'en' or 'fr'"));
    ("role", zEnum ["user"; "pastor"; "IT"] (Some "Role is required")
               (Some "Role must be one of: user, pastor, IT"));
    ("churchSelection", zOptional (zString isEmail None [CheckTrim])) ].

(** [z.object({...}).refine(...)], the schema of [body]. *)
Definition signupBody (isEmail : jsstring -> bool) : Schema :=
  zRefine (zObject (signupBodyShape isEmail))
    churchSelectionRule
    "Church selection is required for pastors and IT."
    ["churchSelection"].

Definition signupSchema (isEmail : jsstring -> bool) : Schema :=
  zObject [ ("body", signupBody isEmail) ].

(** [schema.parseAsync(input)]: the parsed value, or a [ZodError]
    carrying every issue found. *)
Definition parseAsync (schema : Schema) (input : JsValue) : JsValue + list ZodIssue :=
  let r := schema [] input in
  match status r with
  | valid => inl (value r)
  | dirty | aborted => inr (issues r)
  end.

(** [validateRequest(schema)]: [next()] or [next(zodError)]. *)
Definition validateRequest (schema : Schema) (body query params : JsValue)
    : unit + list ZodIssue :=
  match parseAsync schema
          (JObj {[ "body" := body; "query" := query; "params" := params ]}) with
  | inl _ => inl tt
  | inr found => inr found
  end.

(** [POST /signup]: after the multipart parser has filled [req.body],
    [validateRequest(signupSchema)] and then the signup controller,
    which is the only code of the route that creates a user.
    A [ZodError] goes to the global error handler, which answers 400
    with the issues.  The controller is a parameter: it receives the
    request body and the user collection, and returns the collection it
    leaves behind and its response status. *)
Inductive SignupResult :=
| ValidationFailed (statusCode : Z) (errors : list ZodIssue)
| ControllerRan (statusCode : Z).

Definition signupRoute (isEmail : jsstring -> bool)
    (signup : JsValue -> gmap ObjectId User -> gmap ObjectId User * Z)
    (body query params : JsValue) (users : gmap ObjectId User)
    : gmap ObjectId User * SignupResult :=
  match validateRequest (signupSchema isEmail) body query params with
  | inl _ => let '(users', code) := signup body users in (users', ControllerRan code)
  | inr found => (users, ValidationFailed 400 found)
  end.

(** ** The public church listing (src/controllers/dashboardController.ts)

    [ChurchModel.find({}, '_id name')] names the paths to include,
    separated by spaces.  The stored record carries its [_id] as one of
    its fields; an inclusive projection keeps [_id] and the named paths
    and nothing else. *)

Fixpoint splitOn (sep : ascii) (s : string) : list string :=
  match s with
  | EmptyString => [EmptyString]
  | String c s' =>
      if Ascii.eqb c sep then EmptyString :: splitOn sep s'
      else match splitOn sep s' with
           | piece :: rest => String c piece :: rest
           | [] => [String c EmptyString]
           end
  end.

Definition projectionPaths (projection : string) : list string :=
  List.filter (fun piece => negb (bool_decide (piece = EmptyString)))
              (splitOn " "%char projection).

Definition project (paths : list string) (record : gmap string JsValue)
    : gmap string JsValue :=
  filter (fun entry => entry.1 ∈ "_id" :: paths) record.

Definition find (projection : string) : Handler (list (gmap string JsValue)) :=
  fun w =>
    (Returned (project (projectionPaths projection) <$> (map_to_list (churches w)).*2),
     log_op (OpFind projection) w).

(** The handler does not look at the request. *)
Definition getPublicChurchList : Handler unit :=
  found <- find "_id name" ;;
  res_json (JArr (JObj <$> found)).

(** [GET /public/churches] is mounted without [authenticateUser] and
    without [catchAsync]. *)
Definition public_churches (w : World) : World := snd (getPublicChurchList w).

(** ** Routes behind the authenticator

    [router.delete(path, authenticateUser, catchAsync(handler))]: the
    handler runs when the authenticator calls [next()]; an error handed
    to [next] goes to the global error handler, which answers with the
    status of an [AppError] and with 400 for a failed cast. *)

Definition appErrorBody (e : AppError) : JsValue :=
  JObj {[ "status" := JStr (js (if (statusCode e <? 500) then "fail" else "error"));
          "message" := JStr (js (message e)) ]}.

Definition protect
    (verify : jsstring -> VerifyResult) (castObjectId : JsValue -> option ObjectId)
    (users : gmap ObjectId User) (authorization : option jsstring)
    (handler : World -> World) (w : World) : World :=
  match fst (authenticateUser verify castObjectId users authorization) with
  | Proceed _ => handler w
  | Fail e => snd (res_status_json (statusCode e) (appErrorBody e) w)
  | CastError _ =>
      snd (res_status_json 400
             (JObj {[ "status" := JStr (js "fail") ]}) w)
  end.

(** The four routes served by [deleteNestedItem], with the field and
    the index segment each passes. *)
Definition nestedDeletionRoutes : list (string * IndexParam) :=
  [ ("gallery", imageIndex); ("oldServices", serviceIndex);
    ("songs", songIndex); ("liveServices", liveIndex) ].

(** The world the next request finds: the collection as the last
    request left it, and a response not yet written. *)
Definition nextRequest (w : World) : World :=
  {| churches := churches w; oplog := oplog w; sent := None;
     isProduction := isProduction w |}.

(** ** Statements of the specification, for comparison with the code *)

(** The order and outcome of the checks of a nested deletion as the
    specification words them: the first check rejects every index that
    is not a non-negative integer. *)
Definition specifiedStatus (index : Num) (record : option (gmap string JsValue))
    (arrayField : string) : Z :=
  if isNaN index || num_lt index (Int 0) then 400
  else match record with
       | None => 404
       | Some fields =>
           match getField fields arrayField with
           | JArr array =>
               if num_ge index (Int (Z.of_nat (length array))) then 400 else 200
           | _ => 500
           end
       end.

(** The status the code answers with: the first check only asks for a
    number, and a negative index is turned down with the bounds. *)
Definition nestedStatus (index : Num) (record : option (gmap string JsValue))
    (arrayField : string) : Z :=
  if isNaN index then 400
  else match record with
       | None => 404
       | Some fields =>
           match getField fields arrayField with
           | JArr array =>
               if num_lt index (Int 0) || num_ge index (Int (Z.of_nat (length array)))
               then 400 else 200
           | _ => 500
           end
       end.

(** [church.securities[key]] when the block is an object holding an
    array there. *)
Definition securitiesMembers (fields : gmap string JsValue) (key : string)
    : option (list JsValue) :=
  match getField fields "securities" with
  | JObj o => match getField o key with JArr array => Some array | _ => None end
  | _ => None
  end.

Definition securitiesStatus (index : Num) (record : option (gmap string JsValue))
    (key : string) : Z :=
  if isNaN index then 400
  else match record with
       | None => 404
       | Some fields =>
           match securitiesMembers fields key with
           | Some array =>
               if num_lt index (Int 0) || num_ge index (Int (Z.of_nat (length array)))
               then 400 else 200
           | None => 400
           end
       end.

(** ** Sample data: one church, stored under id 7, whose sequences hold
    the three items a, b, c. *)

Definition threeItems : list JsValue :=
  [JStr (js "a"); JStr (js "b"); JStr (js "c")].

Definition sampleChurch : gmap string JsValue :=
  {[ "_id" := JNum 7;
     "name" := JStr (js "Grace Chapel");
     "principal" := JObj {[ "pastor" := JStr (js "J. Kabongo") ]};
     "location" := JStr (js "Kinshasa");
     "image" := JStr (js "https://example.org/church.png");
     "banner" := JArr [JStr (js "https://example.org/banner.png")];
     "securities" := JObj {[ "deacons" := JArr threeItems; "trustees" := JArr threeItems ]};
     "oldServices" := JArr threeItems;
     "liveServices" := JArr threeItems;
     "gallery" := JArr threeItems;
     "songs" := JArr threeItems;
     "logo" := JStr (js "https://example.org/logo.png");
     "user" := JNum 1 ]}.

Definition sampleChurches : gmap ObjectId (gmap string JsValue) :=
  {[ 7%N := sampleChurch ]}.

(** ** Sample identities and tokens

    Two users: Alice, a pastor who is not an administrator, under id 1,
    and Ruth, an administrator, under id 2.  [sampleVerify] accepts
    one token for each, whose payload carries the id and, for Alice, a
    stale [admin: false]; it reports the token "expired" as expired and
    anything else as malformed. *)

Definition castNumericId (v : JsValue) : option ObjectId :=
  match v with
  | JNum n => if 0 <=? n then Some (Z.to_N n) else None
  | _ => None
  end.

Definition alice : User :=
  {| firstName := js "Alice"; lastName := js "Mbuyi"; email := js "alice@example.org";
     role := js "pastor"; churchSelection := Some (js "Grace Chapel"); admin := false |}.

Definition ruth : User :=
  {| firstName := js "Ruth"; lastName := js "Kalala"; email := js "ruth@example.org";
     role := js "IT"; churchSelection := Some (js "Grace Chapel"); admin := true |}.

Definition sampleUsers : gmap ObjectId User := {[ 1%N := alice; 2%N := ruth ]}.

Definition sampleVerify (token : jsstring) : VerifyResult :=
  if bool_decide (token = js "alice-token") then
    Decoded (JObj {[ "id" := JNum 1; "iat" := JNum 1700000000; "admin" := JBool false ]})
  else if bool_decide (token = js "ruth-token") then
    Decoded (JObj {[ "id" := JNum 2; "iat" := JNum 1700000000 ]})
  else if bool_decide (token = js "expired") then VerifyThrows TokenExpiredError
  else VerifyThrows JsonWebTokenError.

Definition notLoggedIn : AppError :=
  {| message := "You are not logged in. Please log in to get access."; statusCode := 401 |}.

Definition invalidToken : AppError :=
  {| message := "Invalid token. Please log in again."; statusCode := 401 |}.

Definition tokenExpired : AppError :=
  {| message := "Your token has expired. Please log in again."; statusCode := 401 |}.

Definition userNotFound : AppError :=
  {| message := "User not found."; statusCode := 401 |}.

Definition noPermission : AppError :=
  {| message := "You do not have permission to perform this action."; statusCode := 403 |}.

(** ** The signup payloads the specification speaks of *)

Definition privilegedRole (body : gmap string JsValue) : Prop :=
  getField body "role" = JStr (js "pastor") \/ getField body "role" = JStr (js "IT").

(** The affiliation is missing, or a string that is blank once trimmed. *)
Definition affiliationMissingOrBlank (body : gmap string JsValue) : Prop :=
  getField body "churchSelection" = JUndefined
  \/ exists s : jsstring, getField body "churchSelection" = JStr s /\ trim s = [].

(** The other fields have the types the schema expects: four strings
    and a language of the enumeration. *)
Definition otherFieldsTyped (body : gmap string JsValue) : Prop :=
  (exists s, getField body "firstName" = JStr s)
  /\ (exists s, getField body "lastName" = JStr s)
  /\ (exists s, getField body "email" = JStr s)
  /\ (exists s, getField body "password" = JStr s)
  /\ (getField body "language" = JStr (js "en")
      \/ getField body "language" = JStr (js "fr")).

Definition affiliationPath : list string := ["body"; "churchSelection"].

(** A signup controller for the examples: it stores the new user under
    the next free id and answers 201. *)
Definition sampleSignup (body : JsValue) (users : gmap ObjectId User)
    : gmap ObjectId User * Z :=
  match body with
  | JObj o =>
      match getField o "firstName", getField o "lastName", getField o "email",
            getField o "role" with
      | JStr f, JStr l, JStr e, JStr r =>
          (<[N.of_nat (S (size users)) :=
               {| firstName := f; lastName := l; email := e; role := r;
                  churchSelection :=
                    match getField o "churchSelection" with
                    | JStr c => Some c
                    | _ => None
                    end;
                  admin := false |}]> users, 201)
      | _, _, _, _ => (users, 500)
      end
  | _ => (users, 500)
  end.

Definition pastorWithoutChurch : gmap string JsValue :=
  {[ "firstName" := JStr (js "Paul"); "lastName" := JStr (js "Ilunga");
     "email" := JStr (js "paul@example.org"); "password" := JStr (js "correct horse");
     "language" := JStr (js "fr"); "role" := JStr (js "pastor") ]}.

Definition pastorOnly : gmap string JsValue :=
  {[ "role" := JStr (js "pastor") ]}.

Definition plainUser : gmap string JsValue :=
  {[ "firstName" := JStr (js "Anne"); "lastName" := JStr (js "Ngoy");
     "email" := JStr (js "anne@example.org"); "password" := JStr (js "correct horse");
     "language" := JStr (js "en"); "role" := JStr (js "user") ]}.

Definition userShortPassword : gmap string JsValue :=
  {[ "firstName" := JStr (js "Anne"); "lastName" := JStr (js "Ngoy");
     "email" := JStr (js "anne@example.org"); "password" := JStr (js "short");
     "language" := JStr (js "en"); "role" := JStr (js "user") ]}.

Definition shortPasswordIssue : ZodIssue :=
  {| code := too_small; path := ["body"; "password"];
     issueMessage := "Password must be at least 8 characters long" |}.

Definition anyEmail (_ : jsstring) : bool := true.

Definition affiliationIssue : ZodIssue :=
  {| code := custom; path := affiliationPath;
     issueMessage := "Church selection is required for pastors and IT." |}.

(** A schema that reports issues only at the path it was given. *)
Definition emitsHere (f : Schema) : Prop :=
  forall (here : list string) (v : JsValue) (issue : ZodIssue),
    issue ∈ issues (f here v) -> path issue = here.

(** ** Pending approvals (src/controllers/adminController.ts)

    [listPendingUsers] answers with the users found by
    [User.find({ role: { $in: ['pastor', 'IT'] }, admin: false })] and
    their number.  The user records of this model carry no password, so
    [select('-password')] has nothing to remove. *)

Definition isPending (u : User) : bool :=
  (bool_decide (role u = js "pastor") || bool_decide (role u = js "IT"))
  && negb (admin u).

Definition pendingUsers (users : gmap ObjectId User) : gmap ObjectId User :=
  filter (fun entry => isPending entry.2 = true) users.

Record PendingUsersResponse := {
  pending_status : Z;
  pending_results : nat;
  pending_users : list (ObjectId * User)
}.

Definition listPendingUsers (users : gmap ObjectId User) : PendingUsersResponse :=
  {| pending_status := 200;
     pending_results := length (map_to_list (pendingUsers users));
     pending_users := map_to_list (pendingUsers users) |}.

(** ** The login schema (src/utils/validationSchemas.ts) *)

Definition loginBodyShape (isEmail : jsstring -> bool) : list (string * Schema) :=
  [ ("email", zString isEmail (Some "Email is required")
                [CheckEmail "Invalid email address"]);
    ("password", zString isEmail (Some "Password is required")
                   [CheckMin 1 "Password cannot be empty"]) ].

Definition loginSchema (isEmail : jsstring -> bool) : Schema :=
  zObject [ ("body", zObject (loginBodyShape isEmail)) ].

(** ** The payloads the schemas accept, written out *)

Definition signupAccepts (isEmail : jsstring -> bool) (body : gmap string JsValue) : Prop :=
  (exists s, getField body "firstName" = JStr s /\ (1 <= length s)%nat)
  /\ (exists s, getField body "lastName" = JStr s /\ (1 <= length s)%nat)
  /\ (exists s, getField body "email" = JStr s /\ isEmail s = true)
  /\ (exists s, getField body "password" = JStr s /\ (8 <= length s)%nat)
  /\ (getField body "language" = JStr (js "en")
      \/ getField body "language" = JStr (js "fr"))
  /\ ((getField body "role" = JStr (js "user")
       /\ (getField body "churchSelection" = JUndefined
           \/ exists s, getField body "churchSelection" = JStr s))
      \/ (privilegedRole body
          /\ exists s, getField body "churchSelection" = JStr s /\ trim s <> [])).

Definition loginAccepts (isEmail : jsstring -> bool) (body : gmap string JsValue) : Prop :=
  (exists s, getField body "email" = JStr s /\ isEmail s = true)
  /\ (exists s, getField body "password" = JStr s /\ (1 <= length s)%nat).

(** A schema that reports at least one issue whenever it does not find
    its input valid. *)
Definition reportsFailure (f : Schema) : Prop :=
  forall (here : list string) (v : JsValue),
    status (f here v) <> valid -> exists issue, issue ∈ issues (f here v).

(** ** Errors and their responses (src/utils/AppError.ts, src/middleware/errorHandler.ts)

    The errors that reach the global handler: an [AppError] with the
    [details] it was built with, a [ZodError] with its issues, the
    store's cast, validation and duplicate-key errors, and any other
    error, of which the handler looks at the name and the message. *)

Inductive ServerError :=
| ErrApp (e : AppError) (details : JsValue)
| ErrZod (found : list ZodIssue)
| ErrCast (castPath castValue msg : string)
| ErrValidation (fieldMessages : list string) (msg : string)
| ErrDuplicateKey (quoted : option string) (msg : string)
| ErrNamed (name msg : string).

(** [`${statusCode}`], for the integers status codes are. *)
Definition numberToString (n : Z) : string := NilZero.string_of_int (Z.to_int n).

(** The [status] an [AppError] gives itself:
    [`${statusCode}`.startsWith('4') ? 'fail' : 'error']. *)
Definition appErrorStatus (code : Z) : string :=
  if String.prefix "4" (numberToString code) then "fail" else "error".

(** An [AppError] as the handler's helpers build it.  Of such an object
    the spread [...appError] copies [statusCode], [status],
    [isOperational] and [details]; the [message], which the [Error]
    constructor defines as a non-enumerable property, is not copied. *)
Record BuiltAppError := {
  built_message : string;
  built_statusCode : Z;
  built_status : string;
  built_details : JsValue
}.

Definition newAppError (msg : string) (code : Z) (details : JsValue) : BuiltAppError :=
  {| built_message := msg; built_statusCode := code;
     built_status := appErrorStatus code; built_details := details |}.

Definition issueCodeName (c : IssueCode) : string :=
  match c with
  | invalid_type => "invalid_type"
  | too_small => "too_small"
  | invalid_string => "invalid_string"
  | invalid_enum_value => "invalid_enum_value"
  | custom => "custom"
  end.

Definition issueValue (issue : ZodIssue) : JsValue :=
  JObj {[ "code" := JStr (js (issueCodeName (code issue)));
          "path" := JArr ((fun piece => JStr (js piece)) <$> path issue);
          "message" := JStr (js (issueMessage issue)) ]}.

Definition messagesValue (messages : list string) : JsValue :=
  JArr ((fun m => JObj {[ "message" := JStr (js m) ]}) <$> messages).

Definition handleCastErrorDB (castPath castValue : string) : BuiltAppError :=
  let msg := "Invalid " +:+ castPath +:+ ": " +:+ castValue +:+ "." in
  newAppError msg 400
    (JObj {[ "details" := JObj {[ "errors" := messagesValue [msg] ]} ]}).

(** [quoted] is what the handler's regular expression found in the
    message, if anything. *)
Definition handleDuplicateFieldsDB (quoted : option string) : BuiltAppError :=
  let msg := "Duplicate field value: " +:+ default "Value" quoted
             +:+ ". Please use another value!" in
  newAppError msg 400
    (JObj {[ "details" := JObj {[ "errors" := messagesValue [msg] ]} ]}).

Definition handleValidationErrorDB (fieldMessages : list string) : BuiltAppError :=
  newAppError ("Invalid input data. " +:+ String.concat ". " fieldMessages) 400
    (JObj {[ "details" :=
               JObj {[ "errors" := JArr ((fun m => JStr (js m)) <$> fieldMessages) ]} ]}).

Definition handleZodError (found : list ZodIssue) : BuiltAppError :=
  let errors :=
    (fun el => String.concat "." (path el) +:+ " - " +:+ issueMessage el) <$> found in
  newAppError ("Invalid input data: " +:+ String.concat "; " errors) 400
    (JObj {[ "details" := JObj {[ "errors" := JArr (issueValue <$> found) ]} ]}).

Definition handleJWTError : BuiltAppError :=
  newAppError "Invalid token. Please log in again!" 401
    (JObj {[ "details" := JObj {[ "errors" := messagesValue ["Invalid token"] ]} ]}).

Definition handleJWTExpiredError : BuiltAppError :=
  newAppError "Your token has expired! Please log in again." 401
    (JObj {[ "details" := JObj {[ "errors" := messagesValue ["Token expired"] ]} ]}).

Record ProcessedError := {
  pe_statusCode : Z;
  pe_status : string;
  pe_message : string;
  pe_isOperational : bool;
  pe_errors : JsValue
}.

(** [a || b] on strings. *)
Definition orElse (a b : string) : string :=
  if bool_decide (a = EmptyString) then b else a.

(** The [errors] the handler reads out of [details]: the member
    [errors] of an object that has one, when it is an array or an
    object. *)
Definition errorsOfDetails (details : JsValue) : JsValue :=
  match details with
  | JObj o =>
      if bool_decide (is_Some (o !! "errors")) then
        match getField o "errors" with
        | JArr a => JArr a
        | JObj x => JObj x
        | _ => JUndefined
        end
      else JUndefined
  | _ => JUndefined
  end.

Definition errorMessageOf (err : ServerError) : string :=
  match err with
  | ErrApp e _ => message e
  | ErrZod found => built_message (handleZodError found)
  | ErrCast _ _ msg | ErrValidation _ msg | ErrDuplicateKey _ msg | ErrNamed _ msg => msg
  end.

(** [{ ...processedError, ...appError, isOperational: true }]. *)
Definition spreadOver (processed : ProcessedError) (built : BuiltAppError) : ProcessedError :=
  {| pe_statusCode := built_statusCode built;
     pe_status := built_status built;
     pe_message := pe_message processed;
     pe_isOperational := true;
     pe_errors := pe_errors processed |}.

(** The first half of [globalErrorHandler]: from the error to the
    processed error. *)
Definition processError (err : ServerError) : ProcessedError :=
  let processed :=
    {| pe_statusCode := 500; pe_status := "error";
       pe_message := orElse (errorMessageOf err) "An unknown error occurred";
       pe_isOperational := false; pe_errors := JUndefined |} in
  match err with
  | ErrApp e details =>
      {| pe_statusCode := statusCode e;
         pe_status := appErrorStatus (statusCode e);
         pe_message := message e;
         pe_isOperational := true;
         pe_errors := errorsOfDetails details |}
  | ErrZod found =>
      let appError := handleZodError found in
      {| pe_statusCode := built_statusCode appError;
         pe_status := built_status appError;
         pe_message := built_message appError;
         pe_isOperational := true;
         pe_errors := errorsOfDetails (built_details appError) |}
  | ErrCast castPath castValue _ => spreadOver processed (handleCastErrorDB castPath castValue)
  | ErrValidation fieldMessages _ => spreadOver processed (handleValidationErrorDB fieldMessages)
  | ErrDuplicateKey quoted _ => spreadOver processed (handleDuplicateFieldsDB quoted)
  | ErrNamed name msg =>
      if bool_decide (name = "JsonWebTokenError") then spreadOver processed handleJWTError
      else if bool_decide (name = "TokenExpiredError") then
        spreadOver processed handleJWTExpiredError
      else
        {| pe_statusCode := 500; pe_status := "error";
           pe_message := orElse msg "An unexpected server error occurred.";
           pe_isOperational := false; pe_errors := JUndefined |}
  end.

(** The response body: [status], [message] and, when there are any,
    [errors].  Of the development body the members [error] and [stack],
    which repeat the processed error and carry the call stack, are left
    out. *)
Definition errorEnvelope (status msg : string) (errors : JsValue) : JsValue :=
  JObj (if truthy errors
        then {[ "status" := JStr (js status); "message" := JStr (js msg);
                "errors" := errors ]}
        else {[ "status" := JStr (js status); "message" := JStr (js msg) ]}).

Definition sendErrorDev (processedErr : ProcessedError) : Handler unit :=
  res_status_json (pe_statusCode processedErr)
    (errorEnvelope (pe_status processedErr) (pe_message processedErr)
       (pe_errors processedErr)).

Definition sendErrorProd (processedErr : ProcessedError) : Handler unit :=
  if pe_isOperational processedErr then
    res_status_json (pe_statusCode processedErr)
      (errorEnvelope (pe_status processedErr) (pe_message processedErr)
         (pe_errors processedErr))
  else
    res_status_json 500
      (JObj {[ "status" := JStr (js "error");
               "message" := JStr (js "Something went very wrong!") ]}).

(** [globalErrorHandler] on the whole range of errors. *)
Definition respondToError (err : ServerError) : Handler unit :=
  fun w =>
    if isProduction w then sendErrorProd (processError err) w
    else sendErrorDev (processError err) w.

(** The status codes of the handler, as a table. *)
Definition errorStatusCode (err : ServerError) : Z :=
  match err with
  | ErrApp e _ => statusCode e
  | ErrZod _ | ErrCast _ _ _ | ErrValidation _ _ | ErrDuplicateKey _ _ => 400
  | ErrNamed name _ =>
      if bool_decide (name = "JsonWebTokenError")
         || bool_decide (name = "TokenExpiredError")
      then 401 else 500
  end.

(** The errors whose message the handler is willing to show. *)
Definition isOperationalError (err : ServerError) : bool :=
  match err with
  | ErrNamed name _ =>
      bool_decide (name = "JsonWebTokenError") || bool_decide (name = "TokenExpiredError")
  | _ => true
  end.

(** ** Deleting a church (src/routes/dashboardRoutes.ts)

    [ChurchModel.findByIdAndDelete(id)], for an id the cast has given
    ([churchDeletionRequest] below puts the cast in front), removes the
    record and returns it, or returns [null].  The log keeps lookups and saves; a deletion
    shows in the collection itself.  A 204 goes out without its body;
    the response keeps what [json] was given. *)



(** ** The current user (src/controllers/authController.ts, src/routes/authRoutes.ts)

    An id is shown as its 24 hexadecimal digits. *)

Definition hexDigit (n : N) : N :=
  (if n <? 10 then 0x30 + n else 0x61 + (n - 10))%N.

Definition objectIdHex (id : ObjectId) : jsstring :=
  (fun k => hexDigit ((id / 16 ^ N.of_nat k) mod 16)%N) <$> reverse (seq 0 24).

(** What [JSON.stringify] keeps of an object literal: the members that
    are not [undefined]. *)
Definition isUndefined (v : JsValue) : bool :=
  match v with JUndefined => true | _ => false end.

Definition definedMembers (o : gmap string JsValue) : gmap string JsValue :=
  filter (fun entry => isUndefined entry.2 = false) o.

(** [getMe] reads [firstName], [lastName] and [avatar] off [req.user],
    which is the object the authenticator built from an id and an
    email; those three members read [undefined]. *)
Definition getMe (reqUser : option ReqUser) : Handler (option AppError) :=
  match reqUser with
  | None =>
      ret (Some {| message := "User not found on request. Authentication might have failed.";
                   statusCode := 401 |})
  | Some user =>
      res_status_json 200
        (JObj {[ "status" := JStr (js "success");
                 "data" :=
                   JObj {[ "user" :=
                             JObj (definedMembers
                                     {[ "id" := JStr (objectIdHex (id user));
                                        "firstName" := JUndefined;
                                        "lastName" := JUndefined;
                                        "email" := JStr (user_email user);
                                        "avatar" := JUndefined ]}) ]} ]}) ;;
      ret None
  end.

(** [router.get('/me', authenticateUser, authController.getMe)]. *)
Definition me_route
    (verify : jsstring -> VerifyResult) (castObjectId : JsValue -> option ObjectId)
    (users : gmap ObjectId User) (authorization : option jsstring) (w : World) : World :=
  match fst (authenticateUser verify castObjectId users authorization) with
  | Proceed u =>
      match getMe (Some u) w with
      | (Returned (Some e), w') => snd (res_status_json (statusCode e) (appErrorBody e) w')
      | (_, w') => w'
      end
  | Fail e => snd (res_status_json (statusCode e) (appErrorBody e) w)
  | CastError _ => snd (res_status_json 400 (JObj {[ "status" := JStr (js "fail") ]}) w)
  end.

(** ** Church bodies (src/routes/dashboardRoutes.ts)

    The schemas of [POST /churches] and [PATCH /churches/:id].  The URL
    check of Zod is a parameter.  [z.array(element).min(n, msg)] checks
    the length first and then parses every element at the path extended
    by its index; like an object, an array is aborted as soon as one
    element is.  [schema.partial()] wraps every field of the shape in
    [optional()], and goes no deeper. *)

Definition zArray (element : Schema) (minLength : option (nat * string)) : Schema :=
  fun here v =>
    match v with
    | JArr items =>
        let short :=
          match minLength with
          | Some (n, msg) =>
              if (length items <? n)%nat
              then [{| code := too_small; path := here; issueMessage := msg |}]
              else []
          | None => []
          end in
        let results :=
          imap (fun i item => element (here ++ [numberToString (Z.of_nat i)]) item) items in
        {| status := foldr (fun r st => mergeStatus (status r) st)
                       (match short with [] => valid | _ => dirty end) results;
           value := JArr (value <$> results);
           issues := short ++ concat (issues <$> results) |}
    | _ => invalidType here "array" None None v
    end.

(** [z.string().url(msg)]. *)
Definition zUrl (isUrl : jsstring -> bool) (msg : string) : Schema :=
  fun here v =>
    match v with
    | JStr s =>
        if isUrl s then {| status := valid; value := v; issues := [] |}
        else {| status := dirty; value := v;
                issues := [{| code := invalid_string; path := here; issueMessage := msg |}] |}
    | _ => invalidType here "string" None None v
    end.

(** [z.string()] and [z.string().min(n, msg)]. *)
Definition zText : Schema := zString (fun _ => true) None [].

Definition zTextMin (n : nat) (msg : string) : Schema :=
  zString (fun _ => true) None [CheckMin n msg].

Definition partial (shape : list (string * Schema)) : list (string * Schema) :=
  (fun entry => (entry.1, zOptional entry.2)) <$> shape.

Module ChurchValidation.

Section Schemas.

Variable isUrl : jsstring -> bool.

Definition principalSchema : Schema :=
  zObject [ ("pastor", zTextMin 1 "Pastor name required");
            ("wife", zOptional zText);
            ("image", zOptional (zUrl isUrl "Invalid URL for principal image"));
            ("description", zOptional zText) ].

Definition deaconSchema : Schema :=
  zObject [ ("names", zTextMin 1 "Deacon name required");
            ("descriptions", zOptional zText);
            ("image", zOptional (zUrl isUrl "Invalid URL for deacon image")) ].

Definition trusteeSchema : Schema :=
  zObject [ ("names", zTextMin 1 "Trustee name required");
            ("descriptions", zOptional zText);
            ("image", zOptional (zUrl isUrl "Invalid URL for trustee image")) ].

Definition securitiesSchema : Schema :=
  zObject [ ("deacons", zArray deaconSchema (Some (1%nat, "At least one deacon is required")));
            ("trustees", zArray trusteeSchema (Some (1%nat, "At least one trustee is required"))) ].

Definition liveServiceSchema : Schema :=
  zObject [ ("title", zTextMin 1 "Service title required");
            ("preacher", zOptional zText);
            ("sermon", zOptional zText) ].

Definition songsSchema : Schema :=
  zObject [ ("title", zTextMin 1 "Song title required");
            ("songUrl", zUrl isUrl "Invalid URL for song") ].

Definition createChurchShape : list (string * Schema) :=
  [ ("name", zTextMin 1 "Church name is required");
    ("location", zTextMin 1 "Location is required");
    ("principal", principalSchema);
    ("image", zUrl isUrl "Valid church image URL is required");
    ("logo", zUrl isUrl "Valid logo URL is required");
    ("banner", zArray (zUrl isUrl "Each banner item must be a valid URL")
                 (Some (1%nat, "At least one banner image URL is required")));
    ("securities", securitiesSchema);
    ("oldServices", zArray liveServiceSchema
                      (Some (1%nat, "At least one past service record is required")));
    ("liveServices", zArray liveServiceSchema
                       (Some (1%nat, "At least one live service record is required")));
    ("gallery", zArray (zUrl isUrl "Each gallery item must be a valid URL")
                  (Some (1%nat, "At least one gallery image URL is required")));
    ("songs", zArray songsSchema (Some (1%nat, "At least one song is required"))) ].

Definition createChurchSchema : Schema := zObject createChurchShape.

Definition updateChurchSchema : Schema := zObject (partial createChurchShape).

End Schemas.

(** [validateRequest(schema)] of the church routes: [schema.parse] on
    the body alone; [inl tt] is [next()], [inr found] is the 400
    response that carries the issues, after which the route's handler
    does not run. *)
Definition validateRequest (schema : Schema) (body : JsValue) : unit + list ZodIssue :=
  let r := schema [] body in
  match status r with
  | valid => inl tt
  | dirty | aborted => inr (issues r)
  end.

End ChurchValidation.

(** The fields of a church that are arrays at the top of the body. *)
Definition churchArrayFields : list string :=
  ["banner"; "oldServices"; "liveServices"; "gallery"; "songs"].

Definition httpsUrl (s : jsstring) : bool := startsWith s (js "https://").

Definition galleryOnly : gmap string JsValue :=
  {[ "gallery" := JArr [JStr (js "https://example.org/a.png")] ]}.

Definition nameAndGallery : gmap string JsValue :=
  {[ "name" := JStr (js "Grace Chapel");
     "gallery" := JArr [JStr (js "https://example.org/a.png")] ]}.

Definition emptyGallery : gmap string JsValue :=
  {[ "name" := JStr (js "Grace Chapel"); "gallery" := JArr [] ]}.

Definition fullChurchBody : gmap string JsValue :=
  let picture := JStr (js "https://example.org/a.png") in
  let service := JObj {[ "title" := JStr (js "Sunday") ]} in
  let officer := JObj {[ "names" := JStr (js "Ruth") ]} in
  {[ "name" := JStr (js "Grace Chapel");
     "location" := JStr (js "Kinshasa");
     "principal" := JObj {[ "pastor" := JStr (js "Paul") ]};
     "image" := picture;
     "logo" := picture;
     "banner" := JArr [picture];
     "securities" := JObj {[ "deacons" := JArr [officer]; "trustees" := JArr [officer] ]};
     "oldServices" := JArr [service];
     "liveServices" := JArr [service];
     "gallery" := JArr [picture];
     "songs" := JArr [JObj {[ "title" := JStr (js "Psalm");
                              "songUrl" := JStr (js "https://example.org/s.mp3") ]}] ]}.

Definition twoPictures : gmap string JsValue :=
  {[ "gallery" := JArr [JStr (js "https://example.org/a.png"); JStr (js "a.png")] ]}.

(** ** The id segment of a request
    (src/routes/dashboardRoutes.ts, src/controllers/adminController.ts)

    The handlers hand [req.params.churchId], [req.params.id] and
    [req.params.userId] to Mongoose as the text Express matched.
    Mongoose casts the text to an ObjectId before anything is sent to
    the store.  When the text is no ObjectId the query rejects with a
    [CastError]: the handler ends at that [await], the store has not
    been called, and the error goes to the global error handler, which
    answers 400 unless a response is already out.  The handlers above
    are the code that runs with the id the cast gives; the definitions
    below put the cast in front of them.  The cast is a parameter: it
    gives the id, or the value and the message of the error. *)

Inductive CastResult :=
| CastOk (id : ObjectId)
| CastFailed (value msg : string).

Definition rejectCast (value msg : string) (w : World) : World :=
  snd (respondToError (ErrCast "_id" value msg) w).

(** A route served by [deleteNestedItem].  With a text that does not
    cast, the check of the index has run, and may have answered, before
    the lookup rejects. *)
Definition nestedDeletionRequest (castId : jsstring -> CastResult)
    (rawChurchId : jsstring) (segments : IndexParam -> option jsstring)
    (arrayField : string) (indexParam : IndexParam) : World -> World :=
  match castId rawChurchId with
  | CastOk id =>
      catchAsync (deleteNestedItem {| churchId := id; indexParams := segments |}
                    arrayField indexParam)
  | CastFailed value msg =>
      fun w =>
        rejectCast value msg
          (snd (when (isNaN (parseIndex (segments indexParam)))
                  (res_status_json 400 (errorBody (invalidIndexMessage indexParam))) w))
  end.

(** The deacon and trustee routes. *)
Definition securitiesDeletionRequest (castId : jsstring -> CastResult)
    (rawChurchId : jsstring) (segments : IndexParam -> option jsstring)
    (key : string) (indexParam : IndexParam) (invalidIndex dataInvalid deleted : string)
    : World -> World :=
  match castId rawChurchId with
  | CastOk id =>
      catchAsync (deleteSecuritiesItem {| churchId := id; indexParams := segments |}
                    key indexParam invalidIndex dataInvalid deleted)
  | CastFailed value msg =>
      fun w =>
        rejectCast value msg
          (snd (when (isNaN (parseIndex (segments indexParam)))
                  (res_status_json 400 (errorBody invalidIndex)) w))
  end.


(** [PATCH /admin/users/:userId/approve]: what the controller leaves in
    the user collection and hands to [next]. *)
Definition approveUserRequest (castId : jsstring -> CastResult)
    (rawUserId : jsstring) (users : gmap ObjectId User)
    : gmap ObjectId User * Next unit :=
  match castId rawUserId with
  | CastOk userId => approveUser userId users
  | CastFailed _ _ => (users, CastError (JStr rawUserId))
  end.

(** A record as Mongoose loads it: every path the schema declares as an
    array holds an array, since a missing one is filled in with its
    default, the empty array. *)
Definition loadedBySchema (record : gmap string JsValue) : Prop :=
  forall path : string,
    isSchemaArray path = true -> isArray (getField record path) = true.

(** The status of a route served by [deleteNestedItem], from the
    request as it arrives. *)
Definition requestStatus (index : Num) (cast : CastResult)
    (store : gmap ObjectId (gmap string JsValue)) (arrayField : string) : Z :=
  if isNaN index then 400
  else match cast with
       | CastFailed _ _ => 400
       | CastOk id => nestedStatus index (store !! id) arrayField
       end.

Definition securitiesRequestStatus (index : Num) (cast : CastResult)
    (store : gmap ObjectId (gmap string JsValue)) (key : string) : Z :=
  if isNaN index then 400
  else match cast with
       | CastFailed _ _ => 400
       | CastOk id => securitiesStatus index (store !! id) key
       end.

(** A cast that accepts the texts of 24 hexadecimal digits. *)
Definition hexValue (c : N) : option N :=
  (if (0x30 <=? c) && (c <=? 0x39) then Some (c - 0x30)
   else if (0x61 <=? c) && (c <=? 0x66) then Some (c - 0x61 + 10)
   else if (0x41 <=? c) && (c <=? 0x46) then Some (c - 0x41 + 10)
   else None)%N.

Definition hexNumber (s : jsstring) : option N :=
  foldl (fun acc c =>
           match acc, hexValue c with
           | Some a, Some h => Some (16 * a + h)%N
           | _, _ => None
           end)
        (Some 0%N) s.

Definition castHex (s : jsstring) : CastResult :=
  if (length s =? 24)%nat then
    match hexNumber s with
    | Some id => CastOk id
    | None => CastFailed "text" "Cast to ObjectId failed"
    end
  else CastFailed "text" "Cast to ObjectId failed".

Definition idSeven : jsstring := js "000000000000000000000007".
Definition idEight : jsstring := js "000000000000000000000008".
Definition noSuchId : jsstring := js "seven".

Definition songSegment (s : jsstring) (p : IndexParam) : option jsstring :=
  indexParams (paramsFor 7 songIndex s) p.

Definition deaconSegment (s : jsstring) (p : IndexParam) : option jsstring :=
  indexParams (paramsFor 7 deaconIndex s) p.

(** * Properties *)

(** ** JavaScript primitives *)

Lemma splice1_in_bounds {A} (l : list A) (i : Z) :
  0 <= i < Z.of_nat (length l) ->
  splice1 (Int i) l = delete (Z.to_nat i) l.
Proof.
  intros Hi. unfold splice1; simpl.
  destruct (Z.ltb_spec i 0) as [?|_]; [lia|].
  rewrite Z.min_l by lia.
  replace (Z.min (Z.max 1 0) (Z.of_nat (length l) - i)) with 1 by lia.
  rewrite delete_take_drop. f_equal. f_equal. lia.
Qed.

Lemma splice1_NaN {A} (l : list A) : splice1 NaN l = drop 1 l.
Proof.
  unfold splice1. cbn [toInteger].
  destruct l as [|x l]; [reflexivity|].
  destruct (Z.ltb_spec 0 0) as [?|_]; [lia|].
  rewrite (Z.min_l 0) by lia.
  replace (Z.to_nat (0 + Z.min (Z.max 1 0) (Z.of_nat (length (x :: l)) - 0)))
    with 1%nat by (simpl length; lia).
  reflexivity.
Qed.

Lemma parseIndex_Int_some (indexStr : option jsstring) (i : Z) :
  parseIndex indexStr = Int i -> exists s, indexStr = Some s /\ parseInt s = Int i.
Proof.
  destruct indexStr as [[|c s]|]; simpl; try discriminate.
  intros H. eauto.
Qed.

(** ** Running the generic handler *)

Lemma writePaths_spliceField (church : ChurchDocument) (path : string)
    (array : list JsValue) (index : Num) (stored : gmap string JsValue) :
  isSchemaArray path = true ->
  doc_modified church = [] ->
  writePaths (spliceField church path array index) stored
  = <[path := JArr (splice1 index array)]> stored.
Proof.
  intros Harr Hmod. unfold writePaths, spliceField; simpl.
  rewrite Harr, Hmod. simpl. unfold getField. by rewrite lookup_insert_eq.
Qed.

Lemma alter_lookup_insert {K A} `{Countable K} (f : A -> A) (m : gmap K A) (k : K) (x : A) :
  m !! k = Some x -> alter f k m = <[k := f x]> m.
Proof.
  intros Hk. apply map_eq. intros j.
  destruct (decide (k = j)) as [->|Hne].
  - by rewrite lookup_alter_eq, lookup_insert_eq, Hk.
  - by rewrite lookup_alter_ne, lookup_insert_ne.
Qed.

(** The outcome of [deleteNestedItem] on a well-formed, in-range
    request against a schema array: one lookup, one save, 200. *)
Lemma deleteNestedItem_success (w : World) (params : DeleteItemParams)
    (arrayField : string) (indexParam : IndexParam)
    (record : gmap string JsValue) (array : list JsValue) (i : Z) :
  sent w = None ->
  isSchemaArray arrayField = true ->
  churches w !! churchId params = Some record ->
  getField record arrayField = JArr array ->
  parseIndex (indexParams params indexParam) = Int i ->
  0 <= i < Z.of_nat (length array) ->
  deleteNestedItem params arrayField indexParam w
  = (Returned tt,
     {| churches :=
          <[churchId params := <[arrayField := JArr (delete (Z.to_nat i) array)]> record]>
            (churches w);
        oplog := oplog w ++ [OpFindById (churchId params);
                             OpSave (churchId params) [arrayField]];
        sent := Some {| res_status := 200;
                        res_body := messageBody
                          (sliceDropLast arrayField +:+ " item deleted successfully") |};
        isProduction := isProduction w |}).
Proof.
  intros Hsent Harr Hrec Hfield Hidx Hi.
  unfold deleteNestedItem. rewrite Hidx. simpl isNaN.
  unfold bind, when, ret, findById. simpl. rewrite Hrec. simpl.
  rewrite Hfield.
  destruct (Z.ltb_spec i 0) as [?|_]; [lia|].
  unfold Z.geb. destruct (Z.compare_spec i (Z.of_nat (length array))) as [?|_|?]; try lia.
  simpl. unfold save, res_status_json. simpl. rewrite Hsent.
  unfold with_sent. simpl. f_equal.
  rewrite Harr. simpl.
  rewrite (alter_lookup_insert _ _ _ record) by exact Hrec.
  rewrite writePaths_spliceField by done.
  rewrite splice1_in_bounds by lia.
  rewrite <- app_assoc. reflexivity.
Qed.

(** The outcome of [deleteNestedItem] when the index is a number outside
    the array: one lookup, no save, 400. *)
Lemma deleteNestedItem_out_of_bounds (w : World) (params : DeleteItemParams)
    (arrayField : string) (indexParam : IndexParam)
    (record : gmap string JsValue) (array : list JsValue) (i : Z) :
  sent w = None ->
  churches w !! churchId params = Some record ->
  getField record arrayField = JArr array ->
  parseIndex (indexParams params indexParam) = Int i ->
  i < 0 \/ Z.of_nat (length array) <= i ->
  deleteNestedItem params arrayField indexParam w
  = (Returned tt,
     {| churches := churches w;
        oplog := oplog w ++ [OpFindById (churchId params)];
        sent := Some {| res_status := 400;
                        res_body := errorBody (invalidIndexMessage indexParam) |};
        isProduction := isProduction w |}).
Proof.
  intros Hsent Hrec Hfield Hidx Hi.
  unfold deleteNestedItem. rewrite Hidx. simpl isNaN.
  unfold bind, when, ret, findById. simpl. rewrite Hrec. simpl.
  rewrite Hfield.
  assert ((i <? 0) || (i >=? Z.of_nat (length array)) = true) as ->.
  { apply orb_true_iff. destruct Hi; [left; lia | right; lia]. }
  unfold res_status_json. simpl. rewrite Hsent. reflexivity.
Qed.

Lemma catchAsync_returned (fn : Handler unit) (w w' : World) :
  fn w = (Returned tt, w') -> catchAsync fn w = w'.
Proof. intros H. unfold catchAsync. by rewrite H. Qed.

Lemma nestedDeletionRoutes_schema (arrayField : string) (indexParam : IndexParam) :
  In (arrayField, indexParam) nestedDeletionRoutes -> isSchemaArray arrayField = true.
Proof.
  simpl. intros [H|[H|[H|[H|[]]]]]; inversion H; reflexivity.
Qed.

(** ** Nested deletion *)

(** C3. On an existing church whose allow-listed field holds an array of
    length n, an index string that parses to i with 0 <= i < n removes
    exactly the element at position i: the elements before it stay in
    place, those after it move one position to the left, the record is
    saved exactly once and the response is 200. *)
Theorem nested_deletion_removes_indexed_element
    (w : World) (params : DeleteItemParams) (arrayField : string)
    (indexParam : IndexParam) (record : gmap string JsValue)
    (array : list JsValue) (i : Z) :
  In (arrayField, indexParam) nestedDeletionRoutes ->
  sent w = None ->
  churches w !! churchId params = Some record ->
  getField record arrayField = JArr array ->
  parseIndex (indexParams params indexParam) = Int i ->
  0 <= i < Z.of_nat (length array) ->
  let w' := catchAsync (deleteNestedItem params arrayField indexParam) w in
  exists array' : list JsValue,
    churches w'
    = <[churchId params := <[arrayField := JArr array']> record]> (churches w)
    /\ S (length array') = length array
    /\ (forall j : nat, (j < Z.to_nat i)%nat -> array' !! j = array !! j)
    /\ (forall j : nat, (Z.to_nat i <= j)%nat -> array' !! j = array !! S j)
    /\ oplog w' = oplog w ++ [OpFindById (churchId params);
                              OpSave (churchId params) [arrayField]]
    /\ statusOf w' = Some 200.
Proof.
  intros Hroute Hsent Hrec Hfield Hidx Hi w'.
  pose proof (nestedDeletionRoutes_schema _ _ Hroute) as Harr.
  pose proof (deleteNestedItem_success w params arrayField indexParam
                record array i Hsent Harr Hrec Hfield Hidx Hi) as Hrun.
  subst w'. rewrite (catchAsync_returned _ _ _ Hrun). simpl.
  exists (delete (Z.to_nat i) array). repeat split.
  - pose proof (length_delete array (Z.to_nat i)) as Hlen.
    rewrite Hlen; [lia|]. apply lookup_lt_is_Some. lia.
  - intros j Hj. by apply list_lookup_delete_lt.
  - intros j Hj. by apply list_lookup_delete_ge.
Qed.

Lemma nested_deletion_removes_indexed_element_witness :
  exists array' : list JsValue,
    churches (delete_song (paramsFor 7 songIndex (js "1")) (freshWorld sampleChurches))
    = <[7%N := <["songs" := JArr array']> sampleChurch]> sampleChurches
    /\ S (length array') = length threeItems
    /\ (forall j : nat, (j < 1)%nat -> array' !! j = threeItems !! j)
    /\ (forall j : nat, (1 <= j)%nat -> array' !! j = threeItems !! S j)
    /\ oplog (delete_song (paramsFor 7 songIndex (js "1")) (freshWorld sampleChurches))
       = [OpFindById 7%N; OpSave 7%N ["songs"]]
    /\ statusOf (delete_song (paramsFor 7 songIndex (js "1")) (freshWorld sampleChurches))
       = Some 200.
Proof.
  apply (nested_deletion_removes_indexed_element
           (freshWorld sampleChurches) (paramsFor 7 songIndex (js "1"))
           "songs" songIndex sampleChurch threeItems 1).
  - simpl. tauto.
  - reflexivity.
  - reflexivity.
  - reflexivity.
  - reflexivity.
  - simpl. lia.
Defined.

(** The example of the specification: [a, b, c] at [songs] with index
    "1" becomes [a, c]. *)
Example delete_song_abc_1 :
  (fun fields => getField fields "songs")
    <$> churches (delete_song (paramsFor 7 songIndex (js "1"))
                    (freshWorld sampleChurches)) !! 7%N
  = Some (JArr [JStr (js "a"); JStr (js "c")]).
Proof. vm_compute. reflexivity. Qed.

(** C8. Nested deletion is not idempotent.  There is a world in which
    sending the same deletion twice leaves another collection than
    sending it once; and after any successful removal at index i, the
    same request sent again either succeeds and removes the element that
    has moved into position i, or, when i was the last position, is
    turned down with 400 and changes nothing. *)
Theorem nested_deletion_not_idempotent :
  (exists (w : World) (params : DeleteItemParams),
      sent w = None
      /\ churches (delete_song params (nextRequest (delete_song params w)))
         <> churches (delete_song params w))
  /\
  (forall (w : World) (params : DeleteItemParams) (arrayField : string)
          (indexParam : IndexParam) (record : gmap string JsValue)
          (array : list JsValue) (i : Z),
      In (arrayField, indexParam) nestedDeletionRoutes ->
      sent w = None ->
      churches w !! churchId params = Some record ->
      getField record arrayField = JArr array ->
      parseIndex (indexParams params indexParam) = Int i ->
      0 <= i < Z.of_nat (length array) ->
      let once := catchAsync (deleteNestedItem params arrayField indexParam) w in
      let twice :=
        catchAsync (deleteNestedItem params arrayField indexParam) (nextRequest once) in
      (fun fields => getField fields arrayField) <$> churches once !! churchId params
      = Some (JArr (delete (Z.to_nat i) array))
      /\
      if i + 1 <? Z.of_nat (length array) then
        statusOf twice = Some 200
        /\ (fun fields => getField fields arrayField) <$> churches twice !! churchId params
           = Some (JArr (delete (Z.to_nat i) (delete (Z.to_nat i) array)))
        /\ delete (Z.to_nat i) array !! Z.to_nat i = array !! S (Z.to_nat i)
      else
        statusOf twice = Some 400
        /\ churches twice = churches once).
Proof.
  split.
  - exists (freshWorld sampleChurches), (paramsFor 7 songIndex (js "1")).
    split; [reflexivity|].
    intros Heq.
    assert ((fun fields => getField fields "songs")
              <$> churches (delete_song (paramsFor 7 songIndex (js "1"))
                     (nextRequest (delete_song (paramsFor 7 songIndex (js "1"))
                                     (freshWorld sampleChurches)))) !! 7%N
            = (fun fields => getField fields "songs")
              <$> churches (delete_song (paramsFor 7 songIndex (js "1"))
                     (freshWorld sampleChurches)) !! 7%N) as Hsongs
      by (rewrite Heq; reflexivity).
    vm_compute in Hsongs. discriminate Hsongs.
  - intros w params arrayField indexParam record array i
           Hroute Hsent Hrec Hfield Hidx Hi once twice.
    pose proof (nestedDeletionRoutes_schema _ _ Hroute) as Harr.
    pose proof (deleteNestedItem_success w params arrayField indexParam
                  record array i Hsent Harr Hrec Hfield Hidx Hi) as Hrun.
    assert (length (delete (Z.to_nat i) array) = pred (length array)) as Hlen.
    { pose proof (length_delete array (Z.to_nat i)) as H.
      rewrite H; [lia|]. apply lookup_lt_is_Some. lia. }
    assert (churches (nextRequest once) !! churchId params
            = Some (<[arrayField := JArr (delete (Z.to_nat i) array)]> record)) as Hrec1.
    { subst once. rewrite (catchAsync_returned _ _ _ Hrun). simpl.
      apply lookup_insert_eq. }
    assert (getField (<[arrayField := JArr (delete (Z.to_nat i) array)]> record) arrayField
            = JArr (delete (Z.to_nat i) array)) as Hfield1.
    { unfold getField. by rewrite lookup_insert_eq. }
    split.
    { change (churches once) with (churches (nextRequest once)).
      rewrite Hrec1. simpl. by rewrite Hfield1. }
    destruct (Z.ltb_spec (i + 1) (Z.of_nat (length array))) as [Hmore|Hlast].
    + assert (0 <= i < Z.of_nat (length (delete (Z.to_nat i) array))) as Hi1
        by (rewrite Hlen; lia).
      pose proof (deleteNestedItem_success (nextRequest once) params arrayField
                    indexParam _ _ i eq_refl Harr Hrec1 Hfield1 Hidx Hi1) as Hrun2.
      subst twice. rewrite (catchAsync_returned _ _ _ Hrun2).
      split; [reflexivity|]. split.
      * simpl. rewrite lookup_insert_eq. simpl.
        unfold getField. by rewrite lookup_insert_eq.
      * apply list_lookup_delete_ge. lia.
    + assert (i < 0 \/ Z.of_nat (length (delete (Z.to_nat i) array)) <= i) as Hout
        by (right; rewrite Hlen; lia).
      pose proof (deleteNestedItem_out_of_bounds (nextRequest once) params arrayField
                    indexParam _ _ i eq_refl Hrec1 Hfield1 Hidx Hout) as Hrun2.
      subst twice. rewrite (catchAsync_returned _ _ _ Hrun2).
      split; reflexivity.
Qed.

(** On [a, b, c]: index "1" sent twice removes b and then c; index "2"
    sent twice removes c and is then turned down. *)
Lemma nested_deletion_not_idempotent_witness :
  (let params := paramsFor 7 songIndex (js "1") in
   let once := delete_song params (freshWorld sampleChurches) in
   let twice := delete_song params (nextRequest once) in
   (fun fields => getField fields "songs") <$> churches once !! 7%N
   = Some (JArr (delete 1%nat threeItems))
   /\ statusOf twice = Some 200
   /\ (fun fields => getField fields "songs") <$> churches twice !! 7%N
      = Some (JArr (delete 1%nat (delete 1%nat threeItems)))
   /\ delete 1%nat threeItems !! 1%nat = threeItems !! 2%nat)
  /\
  (let params := paramsFor 7 songIndex (js "2") in
   let once := delete_song params (freshWorld sampleChurches) in
   let twice := delete_song params (nextRequest once) in
   (fun fields => getField fields "songs") <$> churches once !! 7%N
   = Some (JArr (delete 2%nat threeItems))
   /\ statusOf twice = Some 400
   /\ churches twice = churches once).
Proof.
  split.
  - apply (proj2 nested_deletion_not_idempotent
             (freshWorld sampleChurches) (paramsFor 7 songIndex (js "1"))
             "songs" songIndex sampleChurch threeItems 1).
    + simpl. tauto.
    + reflexivity.
    + reflexivity.
    + reflexivity.
    + reflexivity.
    + simpl. lia.
  - apply (proj2 nested_deletion_not_idempotent
             (freshWorld sampleChurches) (paramsFor 7 songIndex (js "2"))
             "songs" songIndex sampleChurch threeItems 2).
    + simpl. tauto.
    + reflexivity.
    + reflexivity.
    + reflexivity.
    + reflexivity.
    + simpl. lia.
Defined.

(** C10. Behind a successful authentication, the banner route answers
    501 for every request; it makes no call to the church collection,
    neither a read nor a write, and leaves every record as it was. *)
Theorem banner_deletion_not_implemented
    (verify : jsstring -> VerifyResult) (castObjectId : JsValue -> option ObjectId)
    (users : gmap ObjectId User) (authorization : option jsstring) (u : ReqUser)
    (params : DeleteItemParams) (w : World) :
  fst (authenticateUser verify castObjectId users authorization) = Proceed u ->
  sent w = None ->
  let w' := protect verify castObjectId users authorization (delete_banner params) w in
  statusOf w' = Some 501
  /\ oplog w' = oplog w
  /\ churches w' = churches w.
Proof.
  intros Hauth Hsent w'. subst w'. unfold protect. rewrite Hauth.
  unfold delete_banner, catchAsync, res_status_json. rewrite Hsent. simpl.
  repeat split.
Qed.

Lemma banner_deletion_not_implemented_witness :
  let w' := protect sampleVerify castNumericId sampleUsers (Some (js "Bearer alice-token"))
              (delete_banner (paramsFor 7 imageIndex (js "0"))) (freshWorld sampleChurches) in
  statusOf w' = Some 501
  /\ oplog w' = []
  /\ churches w' = sampleChurches.
Proof.
  apply (banner_deletion_not_implemented
           sampleVerify castNumericId sampleUsers (Some (js "Bearer alice-token"))
           {| id := 1%N; user_email := js "alice@example.org" |}
           (paramsFor 7 imageIndex (js "0")) (freshWorld sampleChurches)).
  - vm_compute. reflexivity.
  - reflexivity.
Defined.

(** ** The order of the checks *)

Ltac run_handler :=
  unfold statusOf, catchAsync, globalErrorHandler, bind, when, ret, throw,
    findById, save, readProp, callSplice, res_json, res_status_json,
    with_sent, log_op;
  simpl.

Lemma deleteNestedItem_status (w : World) (params : DeleteItemParams)
    (arrayField : string) (indexParam : IndexParam) :
  sent w = None ->
  statusOf (catchAsync (deleteNestedItem params arrayField indexParam) w)
  = Some (nestedStatus (parseIndex (indexParams params indexParam))
            (churches w !! churchId params) arrayField).
Proof.
  intros Hsent. unfold deleteNestedItem, nestedStatus.
  destruct (parseIndex (indexParams params indexParam)) as [|i];
    run_handler; rewrite ?Hsent; simpl;
    destruct (churches w !! churchId params) as [record|]; simpl;
    rewrite ?Hsent; try reflexivity;
    destruct (getField record arrayField) as [| | | | |array|]; simpl;
    try rewrite Hsent; try reflexivity.
  destruct ((i <? 0) || (i >=? Z.of_nat (length array))); simpl;
    rewrite ?Hsent; reflexivity.
Qed.

Lemma deleteSecuritiesItem_status (w : World) (params : DeleteItemParams)
    (key : string) (indexParam : IndexParam) (invalidIndex dataInvalid deleted : string) :
  sent w = None ->
  statusOf (catchAsync (deleteSecuritiesItem params key indexParam
                          invalidIndex dataInvalid deleted) w)
  = Some (securitiesStatus (parseIndex (indexParams params indexParam))
            (churches w !! churchId params) key).
Proof.
  intros Hsent. unfold deleteSecuritiesItem, securitiesStatus, securitiesMembers.
  destruct (parseIndex (indexParams params indexParam)) as [|i];
    run_handler; rewrite ?Hsent; simpl;
    (destruct (churches w !! churchId params) as [record|]; simpl;
     rewrite ?Hsent; [|reflexivity]);
    (destruct (getField record "securities") as [| |b|n|s|a|o]; simpl;
     try rewrite Hsent; simpl; try reflexivity;
     try (destruct (getField o key) as [| | | | |members|]; simpl);
     repeat match goal with
       | |- context [bool_decide ?P] => destruct (bool_decide P); simpl
       | |- context [Z.eqb ?a ?b] => destruct (Z.eqb a b); simpl
       | |- context [negb ?b] => destruct b; simpl
       | |- context [(?a <? ?b) || ?c] => destruct ((a <? b) || c); simpl
       | |- _ => progress (rewrite ?Hsent; simpl)
       end; try reflexivity).
Qed.

Lemma rejectCast_fresh (value msg : string) (w : World) :
  sent w = None ->
  statusOf (rejectCast value msg w) = Some 400
  /\ churches (rejectCast value msg w) = churches w
  /\ oplog (rejectCast value msg w) = oplog w.
Proof.
  intros Hsent.
  unfold rejectCast, respondToError, sendErrorProd, sendErrorDev, res_status_json, statusOf.
  destruct (isProduction w); simpl; rewrite Hsent; done.
Qed.

Lemma rejectCast_answered (value msg : string) (w : World) (r : Response) :
  sent w = Some r -> rejectCast value msg w = w.
Proof.
  intros Hsent.
  unfold rejectCast, respondToError, sendErrorProd, sendErrorDev, res_status_json.
  destruct (isProduction w); simpl; by rewrite Hsent.
Qed.

Lemma deleteNestedItem_first_answer (w : World) (params : DeleteItemParams)
    (arrayField : string) (indexParam : IndexParam) :
  sent w = None ->
  isNaN (parseIndex (indexParams params indexParam)) = true ->
  sent (catchAsync (deleteNestedItem params arrayField indexParam) w)
  = Some {| res_status := 400; res_body := errorBody (invalidIndexMessage indexParam) |}.
Proof.
  intros Hsent Hnan. unfold deleteNestedItem.
  destruct (parseIndex (indexParams params indexParam)) as [|i]; [|discriminate].
  run_handler. rewrite Hsent. simpl.
  destruct (churches w !! churchId params) as [record|]; simpl; [|reflexivity].
  destruct (getField record arrayField); simpl; reflexivity.
Qed.

Lemma deleteSecuritiesItem_data_invalid (w : World) (params : DeleteItemParams)
    (key : string) (indexParam : IndexParam) (invalidIndex dataInvalid deleted : string)
    (record : gmap string JsValue) :
  sent w = None ->
  isNaN (parseIndex (indexParams params indexParam)) = false ->
  churches w !! churchId params = Some record ->
  securitiesMembers record key = None ->
  sent (catchAsync (deleteSecuritiesItem params key indexParam
                      invalidIndex dataInvalid deleted) w)
  = Some {| res_status := 400; res_body := errorBody dataInvalid |}.
Proof.
  intros Hsent Hnum Hrecord Hmembers.
  unfold deleteSecuritiesItem. unfold securitiesMembers in Hmembers.
  destruct (parseIndex (indexParams params indexParam)) as [|i]; [discriminate|].
  run_handler. rewrite Hrecord. simpl.
  destruct (getField record "securities") as [| |b|n|s|a|o]; simpl;
    try (rewrite ?Hsent; simpl; reflexivity);
    try (destruct (getField o key) as [| | | | |members|]; simpl; try discriminate);
    repeat match goal with
      | |- context [bool_decide ?P] => destruct (bool_decide P); simpl
      | |- context [Z.eqb ?a ?b] => destruct (Z.eqb a b); simpl
      | |- context [negb ?b] => destruct b; simpl
      | |- context [(?a <? ?b) || ?c] => destruct ((a <? b) || c); simpl
      | |- _ => progress (rewrite ?Hsent; simpl)
      end; try reflexivity.
Qed.

(** C2, as the code has it.  The status of a nested deletion is decided
    by these checks, in this order: the index string parses to a number,
    else 400 with the invalid-index message, whatever the id is; the
    text of the church id is an ObjectId, else 400 from the error
    handler; the record exists, else 404; the field holds an array, else
    500; the index is neither negative nor past the end, else 400.  For
    deacons and trustees the order is the same, and a [securities] block
    that is absent or holds no array there answers 400 with the
    data-invalid message.  On a record as Mongoose loads it the four
    routes of the generic handler never reach the 500. *)
Theorem nested_deletion_status_order
    (castId : jsstring -> CastResult) (rawChurchId : jsstring)
    (segments : IndexParam -> option jsstring) (arrayField key : string)
    (indexParam : IndexParam) (invalidIndex dataInvalid deleted : string) (w : World) :
  sent w = None ->
  let index := parseIndex (segments indexParam) in
  let generic :=
    nestedDeletionRequest castId rawChurchId segments arrayField indexParam w in
  let securities :=
    securitiesDeletionRequest castId rawChurchId segments key indexParam
      invalidIndex dataInvalid deleted w in
  statusOf generic
  = Some (requestStatus index (castId rawChurchId) (churches w) arrayField)
  /\ statusOf securities
     = Some (securitiesRequestStatus index (castId rawChurchId) (churches w) key)
  /\ (isNaN index = true ->
      sent generic
      = Some {| res_status := 400;
                res_body := errorBody (invalidIndexMessage indexParam) |})
  /\ (forall (id : ObjectId) (record : gmap string JsValue),
        castId rawChurchId = CastOk id ->
        isNaN index = false ->
        churches w !! id = Some record ->
        securitiesMembers record key = None ->
        sent securities = Some {| res_status := 400; res_body := errorBody dataInvalid |})
  /\ (forall (id : ObjectId) (record : gmap string JsValue),
        In (arrayField, indexParam) nestedDeletionRoutes ->
        castId rawChurchId = CastOk id ->
        churches w !! id = Some record ->
        loadedBySchema record ->
        statusOf generic <> Some 500).
Proof.
  intros Hsent index generic securities.
  assert (statusOf generic
          = Some (requestStatus index (castId rawChurchId) (churches w) arrayField))
    as Hgeneric.
  { subst generic index. unfold nestedDeletionRequest, requestStatus.
    destruct (castId rawChurchId) as [id|value msg].
    - rewrite deleteNestedItem_status by exact Hsent. simpl.
      unfold nestedStatus. by destruct (isNaN (parseIndex (segments indexParam))).
    - destruct (isNaN (parseIndex (segments indexParam))) eqn:Hnan.
      + unfold when, res_status_json. rewrite Hsent. simpl.
        by erewrite rejectCast_answered by reflexivity.
      + unfold when, ret. simpl. by apply rejectCast_fresh. }
  split; [exact Hgeneric|]. split; [|split; [|split]].
  - subst securities index. unfold securitiesDeletionRequest, securitiesRequestStatus.
    destruct (castId rawChurchId) as [id|value msg].
    + rewrite deleteSecuritiesItem_status by exact Hsent. simpl.
      unfold securitiesStatus. by destruct (isNaN (parseIndex (segments indexParam))).
    + destruct (isNaN (parseIndex (segments indexParam))) eqn:Hnan.
      * unfold when, res_status_json. rewrite Hsent. simpl.
        by erewrite rejectCast_answered by reflexivity.
      * unfold when, ret. simpl. by apply rejectCast_fresh.
  - intros Hnan. subst generic index. unfold nestedDeletionRequest.
    destruct (castId rawChurchId) as [id|value msg].
    + by apply deleteNestedItem_first_answer.
    + rewrite Hnan. unfold when, res_status_json. rewrite Hsent. simpl.
      by erewrite rejectCast_answered by reflexivity.
  - intros id record Hcast Hnum Hrecord Hmembers.
    subst securities index. unfold securitiesDeletionRequest. rewrite Hcast.
    by eapply deleteSecuritiesItem_data_invalid.
  - intros id record Hroute Hcast Hrecord Hloaded. rewrite Hgeneric.
    unfold requestStatus, nestedStatus. rewrite Hcast, Hrecord.
    pose proof (Hloaded arrayField (nestedDeletionRoutes_schema _ _ Hroute)) as Harray.
    destruct (isNaN index); [discriminate|].
    destruct (getField record arrayField); try discriminate.
    destruct (num_lt index (Int 0) || num_ge index (Int (Z.of_nat (length a))));
      discriminate.
Qed.

Lemma nested_deletion_status_order_witness :
  statusOf (nestedDeletionRequest castHex noSuchId (songSegment (js "1"))
              "songs" songIndex (freshWorld sampleChurches))
  = Some 400
  /\ statusOf (nestedDeletionRequest castHex idEight (songSegment (js "-1"))
                 "songs" songIndex (freshWorld sampleChurches))
     = Some 404
  /\ statusOf (securitiesDeletionRequest castHex idSeven (deaconSegment (js "5"))
                 "deacons" deaconIndex
                 "Invalid deacon index" "Deacons data not found or invalid"
                 "Deacon deleted successfully" (freshWorld sampleChurches))
     = Some 400.
Proof.
  split; [|split].
  - refine (eq_trans
              (proj1 (nested_deletion_status_order
                        castHex noSuchId (songSegment (js "1")) "songs" "deacons"
                        songIndex "" "" "" (freshWorld sampleChurches) _)) _);
      [reflexivity|vm_compute; reflexivity].
  - refine (eq_trans
              (proj1 (nested_deletion_status_order
                        castHex idEight (songSegment (js "-1")) "songs" "deacons"
                        songIndex "" "" "" (freshWorld sampleChurches) _)) _);
      [reflexivity|vm_compute; reflexivity].
  - refine (eq_trans
              (proj1 (proj2 (nested_deletion_status_order
                               castHex idSeven (deaconSegment (js "5")) "songs" "deacons"
                               deaconIndex
                               "Invalid deacon index" "Deacons data not found or invalid"
                               "Deacon deleted successfully"
                               (freshWorld sampleChurches) _))) _);
      [reflexivity|vm_compute; reflexivity].
Defined.

(** C2, as the specification words it, fails: with the index "-1" and
    no church stored under the id, the first check of the specification
    would answer 400, and the route answers 404. *)
Lemma negative_index_on_missing_church :
  statusOf (delete_song (paramsFor 8 songIndex (js "-1")) (freshWorld sampleChurches))
  = Some 404
  /\ specifiedStatus (parseIndex (indexParams (paramsFor 8 songIndex (js "-1")) songIndex))
       (sampleChurches !! 8%N) "songs" = 400
  /\ statusOf (delete_song (paramsFor 8 songIndex (js "-1")) (freshWorld sampleChurches))
     <> Some (specifiedStatus
                (parseIndex (indexParams (paramsFor 8 songIndex (js "-1")) songIndex))
                (sampleChurches !! 8%N) "songs").
Proof.
  split; [|split].
  - vm_compute. reflexivity.
  - vm_compute. reflexivity.
  - vm_compute. discriminate.
Qed.

(** ** Invalid indices *)

(** C1, at the failing request.  [DELETE /churches/7/gallery/abc] on a
    church whose gallery is [a, b, c] is answered 400, and yet the
    handler goes on: the gallery is saved without its first image. *)
Theorem unparsable_index_still_deletes :
  let w' := delete_gallery (paramsFor 7 imageIndex (js "abc")) (freshWorld sampleChurches) in
  parseIndex (Some (js "abc")) = NaN
  /\ statusOf w' = Some 400
  /\ oplog w' = [OpFindById 7%N; OpSave 7%N ["gallery"]]
  /\ (fun fields => getField fields "gallery") <$> churches w' !! 7%N
     = Some (JArr [JStr (js "b"); JStr (js "c")])
  /\ churches w' <> sampleChurches.
Proof.
  repeat split; try (vm_compute; reflexivity).
  intros Heq.
  assert ((fun fields => getField fields "gallery")
            <$> churches (delete_gallery (paramsFor 7 imageIndex (js "abc"))
                            (freshWorld sampleChurches)) !! 7%N
          = (fun fields => getField fields "gallery") <$> sampleChurches !! 7%N) as H
    by (rewrite Heq; reflexivity).
  vm_compute in H. discriminate H.
Qed.

(** The same slip for every request of the generic handler: when the
    index does not parse, the response is 400 and the first element of
    the array is removed and saved. *)
Lemma deleteNestedItem_NaN_removes_first (w : World) (params : DeleteItemParams)
    (arrayField : string) (indexParam : IndexParam)
    (record : gmap string JsValue) (array : list JsValue) :
  In (arrayField, indexParam) nestedDeletionRoutes ->
  sent w = None ->
  churches w !! churchId params = Some record ->
  getField record arrayField = JArr array ->
  parseIndex (indexParams params indexParam) = NaN ->
  let w' := catchAsync (deleteNestedItem params arrayField indexParam) w in
  statusOf w' = Some 400
  /\ churches w'
     = <[churchId params := <[arrayField := JArr (drop 1 array)]> record]> (churches w)
  /\ oplog w' = oplog w ++ [OpFindById (churchId params);
                            OpSave (churchId params) [arrayField]].
Proof.
  intros Hroute Hsent Hrec Hfield Hidx w'. subst w'.
  pose proof (nestedDeletionRoutes_schema _ _ Hroute) as Harr.
  unfold deleteNestedItem. rewrite Hidx.
  run_handler. rewrite Hsent. simpl. rewrite Hrec. simpl. rewrite Hfield. simpl.
  split; [reflexivity|]. split.
  - rewrite (alter_lookup_insert _ _ _ record) by exact Hrec.
    rewrite writePaths_spliceField by done.
    by rewrite splice1_NaN.
  - rewrite Harr. by rewrite <- app_assoc.
Qed.

(** What holds of C1 on the generic routes: an index that parses to a
    number outside the array is answered 400 after one lookup, and
    nothing is saved. *)
Lemma out_of_range_index_leaves_record (w : World) (params : DeleteItemParams)
    (arrayField : string) (indexParam : IndexParam)
    (record : gmap string JsValue) (array : list JsValue) (i : Z) :
  sent w = None ->
  churches w !! churchId params = Some record ->
  getField record arrayField = JArr array ->
  parseIndex (indexParams params indexParam) = Int i ->
  i < 0 \/ Z.of_nat (length array) <= i ->
  let w' := catchAsync (deleteNestedItem params arrayField indexParam) w in
  statusOf w' = Some 400
  /\ churches w' = churches w
  /\ oplog w' = oplog w ++ [OpFindById (churchId params)].
Proof.
  intros Hsent Hrec Hfield Hidx Hi w'. subst w'.
  rewrite (catchAsync_returned _ _ _
             (deleteNestedItem_out_of_bounds w params arrayField indexParam
                record array i Hsent Hrec Hfield Hidx Hi)).
  repeat split.
Qed.

(** The deacon route does not return after its bounds check either:
    with index "5" on three deacons it answers 400 and still reaches
    [save]. *)
Example delete_deacon_out_of_range :
  let w' := delete_deacon (paramsFor 7 deaconIndex (js "5")) (freshWorld sampleChurches) in
  statusOf w' = Some 400
  /\ oplog w' = [OpFindById 7%N; OpSave 7%N []].
Proof. split; vm_compute; reflexivity. Qed.

(** ** Authentication *)

Lemma instanceOf_JsonWebTokenError (err : ErrorClass) :
  instanceOf err TokenExpiredError = true -> instanceOf err JsonWebTokenError = true.
Proof. destruct err; vm_compute; congruence. Qed.

(** C4, at the failing request.  An expired token makes [jwt.verify]
    throw a [TokenExpiredError]; the authenticator answers with the
    invalid-token error, and no request at all is ever answered with the
    expired-token error, since every [TokenExpiredError] is a
    [JsonWebTokenError] and that test comes first. *)
Theorem expired_token_reported_as_invalid :
  sampleVerify (js "expired") = VerifyThrows TokenExpiredError
  /\ fst (authenticateUser sampleVerify castNumericId sampleUsers
            (Some (js "Bearer expired")))
     = Fail invalidToken
  /\ forall (verify : jsstring -> VerifyResult)
            (castObjectId : JsValue -> option ObjectId)
            (users : gmap ObjectId User) (authorization : option jsstring),
       fst (authenticateUser verify castObjectId users authorization)
       <> Fail tokenExpired.
Proof.
  split; [reflexivity|]. split; [vm_compute; reflexivity|].
  intros verify castObjectId users authorization.
  unfold authenticateUser.
  destruct (extractToken authorization) as [[|c token]|]; simpl; try discriminate.
  destruct (verify (c :: token)) as [payload|err]; simpl.
  - destruct payload as [| | | | | |decoded]; simpl; try discriminate.
    destruct (bool_decide (is_Some (decoded !! "id"))); simpl; try discriminate.
    destruct (castObjectId (getField decoded "id")) as [uid|]; simpl; try discriminate.
    destruct (users !! uid); simpl; discriminate.
  - destruct err; simpl; discriminate.
Qed.

(** What holds of C4: a token that fails verification structurally or
    on its signature is answered with the invalid-token error, 401. *)
Lemma malformed_token_reported_as_invalid
    (verify : jsstring -> VerifyResult) (castObjectId : JsValue -> option ObjectId)
    (users : gmap ObjectId User) (authorization : option jsstring)
    (c : N) (token : jsstring) :
  extractToken authorization = Some (c :: token) ->
  verify (c :: token) = VerifyThrows JsonWebTokenError ->
  fst (authenticateUser verify castObjectId users authorization) = Fail invalidToken.
Proof.
  intros Htoken Hverify. unfold authenticateUser. rewrite Htoken, Hverify. reflexivity.
Qed.

(** C5, as the specification words it, fails: the header
    [BearerX alice-token] does not begin with ["Bearer "], and the
    authenticator verifies the token and lets the request through. *)
Lemma bearer_prefix_without_space_is_verified :
  startsWith (js "BearerX alice-token") (js "Bearer ") = false
  /\ authenticateUser sampleVerify castNumericId sampleUsers
       (Some (js "BearerX alice-token"))
     = (Proceed {| id := 1%N; user_email := js "alice@example.org" |},
        [EvVerify (js "alice-token"); EvFindUser 1%N]).
Proof. split; vm_compute; reflexivity. Qed.

Lemma extractToken_no_bearer (header : jsstring) :
  startsWith header (js "Bearer") = false -> extractToken (Some header) = None.
Proof.
  intros H. unfold extractToken. rewrite H.
  by rewrite andb_false_r.
Qed.

(** C5, as the code has it.  A request with no Authorization header,
    with a header that does not begin with [Bearer], or with a header
    whose second piece, split at spaces, is missing or empty, is turned
    down with the not-logged-in error, 401, before [jwt.verify] or the
    user collection is called. *)
Theorem header_without_bearer_token_is_unauthenticated
    (verify : jsstring -> VerifyResult) (castObjectId : JsValue -> option ObjectId)
    (users : gmap ObjectId User) (authorization : option jsstring) :
  authorization = None
  \/ (exists header : jsstring,
        authorization = Some header
        /\ (startsWith header (js "Bearer") = false
            \/ default [] (split 0x20%N header !! 1%nat) = [])) ->
  authenticateUser verify castObjectId users authorization = (Fail notLoggedIn, []).
Proof.
  intros [->|(header & -> & [Hprefix|Hpiece])].
  - reflexivity.
  - unfold authenticateUser. by rewrite extractToken_no_bearer.
  - unfold authenticateUser, extractToken.
    destruct (negb (bool_decide (header = [])) && startsWith header (js "Bearer"));
      [|reflexivity].
    destruct (split 0x20%N header !! 1%nat) as [[|c token]|]; simpl in *;
      try reflexivity; discriminate.
Qed.

Lemma header_without_bearer_token_is_unauthenticated_witness :
  authenticateUser sampleVerify castNumericId sampleUsers None = (Fail notLoggedIn, [])
  /\ authenticateUser sampleVerify castNumericId sampleUsers (Some (js "Basic alice-token"))
     = (Fail notLoggedIn, [])
  /\ authenticateUser sampleVerify castNumericId sampleUsers (Some (js "Bearer"))
     = (Fail notLoggedIn, []).
Proof.
  split; [|split].
  - apply (header_without_bearer_token_is_unauthenticated
             sampleVerify castNumericId sampleUsers None).
    left. reflexivity.
  - apply (header_without_bearer_token_is_unauthenticated
             sampleVerify castNumericId sampleUsers (Some (js "Basic alice-token"))).
    right. exists (js "Basic alice-token"). split; [reflexivity|].
    left. reflexivity.
  - apply (header_without_bearer_token_is_unauthenticated
             sampleVerify castNumericId sampleUsers (Some (js "Bearer"))).
    right. exists (js "Bearer"). split; [reflexivity|].
    right. reflexivity.
Defined.

(** ** The elevation check *)

Lemma authenticateUser_proceeds
    (verify : jsstring -> VerifyResult) (castObjectId : JsValue -> option ObjectId)
    (users : gmap ObjectId User) (authorization : option jsstring) (u : ReqUser) :
  fst (authenticateUser verify castObjectId users authorization) = Proceed u ->
  exists (token : jsstring) (decoded : gmap string JsValue) (user : User),
    extractToken authorization = Some token
    /\ token <> []
    /\ verify token = Decoded (JObj decoded)
    /\ is_Some (decoded !! "id")
    /\ castObjectId (getField decoded "id") = Some (id u)
    /\ users !! id u = Some user
    /\ user_email u = email user.
Proof.
  unfold authenticateUser.
  destruct (extractToken authorization) as [[|c token]|]; simpl; try discriminate.
  destruct (verify (c :: token)) as [payload|err] eqn:Hverify; simpl.
  - destruct payload as [| | | | | |decoded]; simpl; try discriminate.
    destruct (bool_decide (is_Some (decoded !! "id"))) eqn:Hid; simpl; try discriminate.
    destruct (castObjectId (getField decoded "id")) as [uid|] eqn:Hcast;
      simpl; try discriminate.
    destruct (users !! uid) as [user|] eqn:Huser; simpl; try discriminate.
    intros [= <-]. simpl.
    exists (c :: token), decoded, user.
    repeat split; try done.
    by apply bool_decide_eq_true in Hid.
  - destruct (instanceOf err JsonWebTokenError); [discriminate|].
    destruct (instanceOf err TokenExpiredError); discriminate.
Qed.

(** C6. After authentication, the elevation check looks the identity up
    again under the authenticated id and decides on the stored flag
    alone: 401 when there is no such identity, 403 when the flag is
    false, through when it is true.  So a request that authenticates,
    sent again with the same credential after an approval has set the
    flag, passes the gate of the admin routes, whatever the token
    carries. *)
Theorem elevation_check_reads_current_flag :
  (forall (users : gmap ObjectId User) (u : ReqUser),
      isAdmin users (Some u)
      = match users !! id u with
        | None => Fail userNotFound
        | Some user => if admin user then Proceed tt else Fail noPermission
        end)
  /\
  (forall (verify : jsstring -> VerifyResult) (castObjectId : JsValue -> option ObjectId)
          (users : gmap ObjectId User) (authorization : option jsstring) (u : ReqUser),
      fst (authenticateUser verify castObjectId users authorization) = Proceed u ->
      adminGate verify castObjectId (fst (approveUser (id u) users)) authorization
      = Proceed tt).
Proof.
  split.
  - intros users u. unfold isAdmin.
    destruct (users !! id u) as [user|]; [|reflexivity].
    by destruct (admin user).
  - intros verify castObjectId users authorization u Hauth.
    destruct (authenticateUser_proceeds _ _ _ _ _ Hauth)
      as (token & decoded & user & Htoken & Hne & Hverify & Hid & Hcast & Huser & _).
    unfold approveUser. rewrite Huser. simpl.
    unfold adminGate, authenticateUser. rewrite Htoken.
    destruct token as [|c token]; [done|].
    rewrite Hverify. rewrite (bool_decide_eq_true_2 _ Hid). rewrite Hcast.
    rewrite lookup_alter_eq, Huser. simpl.
    unfold isAdmin. simpl. rewrite lookup_alter_eq, Huser. reflexivity.
Qed.

(** Alice's token says [admin: false] and was issued before her
    approval; after the approval the same token passes the gate. *)
Lemma elevation_check_reads_current_flag_witness :
  adminGate sampleVerify castNumericId (fst (approveUser 1%N sampleUsers))
    (Some (js "Bearer alice-token"))
  = Proceed tt.
Proof.
  apply (proj2 elevation_check_reads_current_flag
           sampleVerify castNumericId sampleUsers (Some (js "Bearer alice-token"))
           {| id := 1%N; user_email := js "alice@example.org" |}).
  vm_compute. reflexivity.
Defined.

Example alice_before_approval :
  adminGate sampleVerify castNumericId sampleUsers (Some (js "Bearer alice-token"))
  = Fail noPermission.
Proof. vm_compute. reflexivity. Qed.

(** ** Signup validation *)

Lemma invalidType_emitsHere (expected : string) (req inv : option string)
    (here : list string) (v : JsValue) (issue : ZodIssue) :
  issue ∈ issues (invalidType here expected req inv v) -> path issue = here.
Proof.
  unfold invalidType; simpl. intros H%list_elem_of_singleton. by subst.
Qed.

Lemma runStringChecks_paths (isEmail : jsstring -> bool) (here : list string)
    (checks : list StringCheck) (s : jsstring) (issue : ZodIssue) :
  issue ∈ (runStringChecks isEmail here checks s).2 -> path issue = here.
Proof.
  revert s. induction checks as [|check rest IH]; intros s; simpl.
  - intros H. by apply elem_of_nil in H.
  - destruct check as [n msg|msg|].
    + destruct (runStringChecks isEmail here rest s) as [s' found] eqn:Hrest.
      simpl. specialize (IH s). rewrite Hrest in IH. simpl in IH.
      destruct (length s <? n)%nat; [|exact IH].
      intros [->|H]%elem_of_cons; [reflexivity|by apply IH].
    + destruct (runStringChecks isEmail here rest s) as [s' found] eqn:Hrest.
      simpl. specialize (IH s). rewrite Hrest in IH. simpl in IH.
      destruct (isEmail s); [exact IH|].
      intros [->|H]%elem_of_cons; [reflexivity|by apply IH].
    + apply IH.
Qed.

Lemma zString_emitsHere (isEmail : jsstring -> bool) (req : option string)
    (checks : list StringCheck) : emitsHere (zString isEmail req checks).
Proof.
  intros here v issue. unfold zString.
  destruct v; try apply invalidType_emitsHere.
  pose proof (runStringChecks_paths isEmail here checks s issue) as H.
  destruct (runStringChecks isEmail here checks s) as [s' found]. simpl in *.
  exact H.
Qed.

Lemma zEnum_emitsHere (values : list string) (req inv : option string) :
  emitsHere (zEnum values req inv).
Proof.
  intros here v issue. unfold zEnum.
  destruct v; try apply invalidType_emitsHere.
  destruct (bool_decide (s ∈ js <$> values)); simpl.
  - intros H. by apply elem_of_nil in H.
  - intros H%list_elem_of_singleton. by subst.
Qed.

Lemma zOptional_emitsHere (inner : Schema) : emitsHere inner -> emitsHere (zOptional inner).
Proof.
  intros Hinner here v issue. unfold zOptional.
  destruct v; try apply Hinner.
  simpl. intros H. by apply elem_of_nil in H.
Qed.

Lemma signupBodyShape_emitsHere (isEmail : jsstring -> bool) :
  Forall (fun entry => emitsHere entry.2) (signupBodyShape isEmail).
Proof.
  unfold signupBodyShape.
  repeat (apply Forall_cons; split;
          [first [apply zString_emitsHere | apply zEnum_emitsHere
                 | apply zOptional_emitsHere, zString_emitsHere]|]).
  apply Forall_nil_2.
Qed.

(** *** Objects *)

Lemma mergeStatus_not_aborted (a b : ParseStatus) :
  a <> aborted -> b <> aborted -> mergeStatus a b <> aborted.
Proof. destruct a, b; simpl; congruence. Qed.

Lemma parseShape_not_aborted (shape : list (string * Schema)) (here : list string)
    (data : gmap string JsValue) :
  Forall (fun entry => status (entry.2 (here ++ [entry.1]) (getField data entry.1)) <> aborted)
         shape ->
  (parseShape shape here data).1.1 <> aborted.
Proof.
  induction shape as [|[key f] rest IH]; simpl; intros Hall.
  - discriminate.
  - apply Forall_cons in Hall as [Hhead Htail].
    destruct (parseShape rest here data) as [[st obj] found]. simpl in *.
    apply mergeStatus_not_aborted; auto.
Qed.

Lemma parseShape_issues (shape : list (string * Schema)) (here : list string)
    (data : gmap string JsValue) (issue : ZodIssue) :
  issue ∈ (parseShape shape here data).2 <->
  exists entry, entry ∈ shape
                /\ issue ∈ issues (entry.2 (here ++ [entry.1]) (getField data entry.1)).
Proof.
  induction shape as [|[key f] rest IH]; simpl.
  - split; [intros H; by apply elem_of_nil in H|].
    intros (entry & H & _). by apply elem_of_nil in H.
  - destruct (parseShape rest here data) as [[st obj] found]. simpl in *.
    rewrite elem_of_app, IH. split.
    + intros [H|(entry & Hin & H)].
      * exists (key, f). split; [apply elem_of_cons; by left|exact H].
      * exists entry. split; [apply elem_of_cons; by right|exact H].
    + intros (entry & [->|Hin]%elem_of_cons & H); [by left|].
      right. by exists entry.
Qed.

Lemma parseShape_keys (shape : list (string * Schema)) (here : list string)
    (data : gmap string JsValue) (key : string) :
  key ∉ shape.*1 -> (parseShape shape here data).1.2 !! key = None.
Proof.
  induction shape as [|[k f] rest IH]; simpl; intros Hnot.
  - apply lookup_empty.
  - apply not_elem_of_cons in Hnot as [Hne Hrest].
    specialize (IH Hrest).
    destruct (parseShape rest here data) as [[st obj] found]. simpl in *.
    destruct (value (f (here ++ [k]) (getField data k)));
      try (rewrite lookup_insert_ne by congruence; exact IH).
    destruct (bool_decide (is_Some (data !! k)));
      [rewrite lookup_insert_ne by congruence|]; exact IH.
Qed.

(** The parsed object holds, under each key of the shape, the value its
    validator returned. *)
Lemma parseShape_value (shape : list (string * Schema)) (here : list string)
    (data : gmap string JsValue) (key : string) (f : Schema) :
  NoDup shape.*1 ->
  (key, f) ∈ shape ->
  getField (parseShape shape here data).1.2 key
  = value (f (here ++ [key]) (getField data key)).
Proof.
  induction shape as [|[k g] rest IH]; simpl; intros Hnodup Hin.
  - by apply elem_of_nil in Hin.
  - apply NoDup_cons in Hnodup as [Hfresh Hnodup].
    apply elem_of_cons in Hin as [[= -> ->]|Hin].
    + pose proof (parseShape_keys rest here data k Hfresh) as Hnone.
      destruct (parseShape rest here data) as [[st obj] found]. simpl in *.
      unfold getField at 1.
      destruct (value (g (here ++ [k]) (getField data k)));
        try (by rewrite lookup_insert_eq).
      destruct (bool_decide (is_Some (data !! k)));
        [by rewrite lookup_insert_eq|by rewrite Hnone].
    + assert (k <> key) as Hne.
      { intros ->. apply Hfresh. apply list_elem_of_fmap. by exists (key, f). }
      specialize (IH Hnodup Hin).
      destruct (parseShape rest here data) as [[st obj] found]. simpl in *.
      unfold getField at 1.
      destruct (value (g (here ++ [k]) (getField data k)));
        try (rewrite lookup_insert_ne by congruence; exact IH).
      destruct (bool_decide (is_Some (data !! k)));
        [rewrite lookup_insert_ne by congruence|]; exact IH.
Qed.

(** *** The signup schema *)

Lemma signupBodyShape_NoDup (isEmail : jsstring -> bool) :
  NoDup (signupBodyShape isEmail).*1.
Proof. apply (bool_decide_unpack _). by vm_compute. Qed.

Lemma zString_typed (isEmail : jsstring -> bool) (req : option string)
    (checks : list StringCheck) (here : list string) (s : jsstring) :
  status (zString isEmail req checks here (JStr s)) <> aborted.
Proof.
  unfold zString. destruct (runStringChecks isEmail here checks s) as [s' found].
  simpl. by destruct found.
Qed.

Lemma zEnum_member (values : list string) (req inv : option string)
    (here : list string) (s : jsstring) :
  s ∈ js <$> values ->
  zEnum values req inv here (JStr s) = {| status := valid; value := JStr s; issues := [] |}.
Proof. intros H. unfold zEnum. by rewrite bool_decide_eq_true_2. Qed.

Lemma zEnum_value (values : list string) (req inv : option string)
    (here : list string) (v : JsValue) :
  value (zEnum values req inv here v) = v.
Proof.
  unfold zEnum, invalidType. destruct v; try reflexivity.
  by destruct (bool_decide (s ∈ js <$> values)).
Qed.

Lemma churchSelection_parsed (isEmail : jsstring -> bool) (here : list string)
    (v : JsValue) :
  v = JUndefined \/ (exists s, v = JStr s) ->
  issues (zOptional (zString isEmail None [CheckTrim]) here v) = []
  /\ status (zOptional (zString isEmail None [CheckTrim]) here v) = valid
  /\ value (zOptional (zString isEmail None [CheckTrim]) here v)
     = match v with JStr s => JStr (trim s) | _ => JUndefined end.
Proof. intros [->|[s ->]]; simpl; repeat split. Qed.

(** What the middleware returns for a signup request whose body is an
    object: the verdict on [body], at the path [body]. *)
Lemma validateRequest_signup (isEmail : jsstring -> bool) (body query params : JsValue) :
  validateRequest (signupSchema isEmail) body query params
  = let r := signupBody isEmail ["body"] body in
    match status r with
    | valid => inl tt
    | dirty | aborted => inr (issues r)
    end.
Proof.
  assert (getField {[ "body" := body; "query" := query; "params" := params ]} "body"
          = body) as Hbody.
  { unfold getField. by rewrite lookup_insert_eq. }
  unfold validateRequest, parseAsync, signupSchema, zObject. simpl.
  rewrite !Hbody, app_nil_r.
  destruct (signupBody isEmail ["body"] body) as [st v found]. simpl.
  by destruct st.
Qed.

Lemma parsed_role (isEmail : jsstring -> bool) (body : gmap string JsValue) :
  getField (parseShape (signupBodyShape isEmail) ["body"] body).1.2 "role"
  = getField body "role".
Proof.
  erewrite parseShape_value.
  - apply zEnum_value.
  - apply signupBodyShape_NoDup.
  - unfold signupBodyShape. do 5 apply list_elem_of_further. apply list_elem_of_here.
Qed.

Lemma parsed_churchSelection (isEmail : jsstring -> bool) (body : gmap string JsValue) :
  getField (parseShape (signupBodyShape isEmail) ["body"] body).1.2 "churchSelection"
  = value (zOptional (zString isEmail None [CheckTrim]) ["body"; "churchSelection"]
             (getField body "churchSelection")).
Proof.
  erewrite parseShape_value.
  - reflexivity.
  - apply signupBodyShape_NoDup.
  - unfold signupBodyShape. do 6 apply list_elem_of_further. apply list_elem_of_here.
Qed.

(** The fields of a privileged payload without affiliation, as the rule
    of the refinement sees them once they are parsed. *)
Lemma churchSelectionRule_fails (isEmail : jsstring -> bool) (body : gmap string JsValue) :
  privilegedRole body ->
  affiliationMissingOrBlank body ->
  churchSelectionRule
    (JObj (parseShape (signupBodyShape isEmail) ["body"] body).1.2) = false.
Proof.
  intros Hrole Hblank. unfold churchSelectionRule.
  rewrite !parsed_role, !parsed_churchSelection.
  assert (getField body "churchSelection" = JUndefined
          \/ exists s, getField body "churchSelection" = JStr s) as Hshape.
  { destruct Hblank as [?|(s & ? & _)]; eauto. }
  destruct (churchSelection_parsed isEmail ["body"; "churchSelection"] _ Hshape)
    as (_ & _ & ->).
  assert (strictEqualsString (getField body "role") "pastor"
          || strictEqualsString (getField body "role") "IT" = true) as ->.
  { destruct Hrole as [->| ->]; reflexivity. }
  destruct Hblank as [->|(s & -> & ->)]; reflexivity.
Qed.

Lemma signupBody_typed (isEmail : jsstring -> bool) (body : gmap string JsValue) :
  otherFieldsTyped body ->
  privilegedRole body \/ getField body "role" = JStr (js "user") ->
  getField body "churchSelection" = JUndefined
  \/ (exists s, getField body "churchSelection" = JStr s) ->
  (parseShape (signupBodyShape isEmail) ["body"] body).1.1 <> aborted.
Proof.
  intros ((s1 & H1) & (s2 & H2) & (s3 & H3) & (s4 & H4) & Hlang) Hrole Hcs.
  apply parseShape_not_aborted. unfold signupBodyShape.
  repeat apply Forall_cons_2; try apply Forall_nil_2; simpl.
  - rewrite H1. apply zString_typed.
  - rewrite H2. apply zString_typed.
  - rewrite H3. apply zString_typed.
  - rewrite H4. apply zString_typed.
  - destruct Hlang as [->| ->]; rewrite zEnum_member; try done;
      by apply (bool_decide_unpack _).
  - destruct Hrole as [[->| ->]| ->]; rewrite zEnum_member; try done;
      by apply (bool_decide_unpack _).
  - destruct (churchSelection_parsed isEmail ["body"; "churchSelection"] _ Hcs)
      as (_ & Hst & _).
    rewrite Hst. discriminate.
Qed.

(** Where an issue on a signup body comes from: a field of the shape,
    or the cross-field rule, which only runs on a body that was not
    aborted. *)
Lemma signupBody_issues (isEmail : jsstring -> bool) (body : gmap string JsValue)
    (issue : ZodIssue) :
  issue ∈ issues (signupBody isEmail ["body"] (JObj body)) ->
  (exists entry, entry ∈ signupBodyShape isEmail
                 /\ issue ∈ issues (entry.2 (["body"] ++ [entry.1]) (getField body entry.1)))
  \/ (issue = affiliationIssue
      /\ (parseShape (signupBodyShape isEmail) ["body"] body).1.1 <> aborted
      /\ churchSelectionRule
           (JObj (parseShape (signupBodyShape isEmail) ["body"] body).1.2) = false).
Proof.
  unfold signupBody, zRefine, zObject.
  pose proof (parseShape_issues (signupBodyShape isEmail) ["body"] body issue) as Hiss.
  destruct (parseShape (signupBodyShape isEmail) ["body"] body) as [[st obj] found].
  simpl in *.
  destruct st; simpl.
  - destruct (churchSelectionRule (JObj obj)) eqn:Hrule; simpl.
    + intros H. left. by apply Hiss.
    + intros [H|H%list_elem_of_singleton]%elem_of_app.
      * left. by apply Hiss.
      * right. by subst.
  - destruct (churchSelectionRule (JObj obj)) eqn:Hrule; simpl.
    + intros H. left. by apply Hiss.
    + intros [H|H%list_elem_of_singleton]%elem_of_app.
      * left. by apply Hiss.
      * right. by subst.
  - intros H. left. by apply Hiss.
Qed.

(** A privileged body without affiliation never validates; when its
    fields were not aborted, the rule adds its issue on the affiliation
    path. *)
Lemma signupBody_privileged_blank (isEmail : jsstring -> bool)
    (body : gmap string JsValue) :
  privilegedRole body ->
  affiliationMissingOrBlank body ->
  status (signupBody isEmail ["body"] (JObj body)) <> valid
  /\ ((parseShape (signupBodyShape isEmail) ["body"] body).1.1 <> aborted ->
      affiliationIssue ∈ issues (signupBody isEmail ["body"] (JObj body))).
Proof.
  intros Hrole Hblank.
  pose proof (churchSelectionRule_fails isEmail body Hrole Hblank) as Hrule.
  unfold signupBody, zRefine, zObject.
  destruct (parseShape (signupBodyShape isEmail) ["body"] body) as [[st obj] found].
  simpl in *. rewrite Hrule.
  destruct st; simpl; split; try discriminate; try done.
  - intros _. apply elem_of_app. right. apply list_elem_of_here.
  - intros _. apply elem_of_app. right. apply list_elem_of_here.
Qed.

(** C7, as the code has it.  A signup whose role is pastor or IT and
    whose affiliation is missing or blank never validates: the route
    answers 400 and hands the request to no controller, so the user
    collection is as it was.  When the other fields of the body have
    the types the schema expects, one of the violations is on the
    affiliation path.  For the role user, with the affiliation missing
    or any string, no violation is on that path. *)
Theorem privileged_signup_requires_affiliation :
  (forall (isEmail : jsstring -> bool)
          (signup : JsValue -> gmap ObjectId User -> gmap ObjectId User * Z)
          (body : gmap string JsValue) (query params : JsValue)
          (users : gmap ObjectId User),
      privilegedRole body ->
      affiliationMissingOrBlank body ->
      exists found : list ZodIssue,
        signupRoute isEmail signup (JObj body) query params users
        = (users, ValidationFailed 400 found))
  /\
  (forall (isEmail : jsstring -> bool) (body : gmap string JsValue)
          (query params : JsValue),
      privilegedRole body ->
      affiliationMissingOrBlank body ->
      otherFieldsTyped body ->
      exists (found : list ZodIssue) (issue : ZodIssue),
        validateRequest (signupSchema isEmail) (JObj body) query params = inr found
        /\ issue ∈ found
        /\ path issue = affiliationPath)
  /\
  (forall (isEmail : jsstring -> bool) (body : gmap string JsValue)
          (query params : JsValue) (found : list ZodIssue) (issue : ZodIssue),
      getField body "role" = JStr (js "user") ->
      getField body "churchSelection" = JUndefined
      \/ (exists s, getField body "churchSelection" = JStr s) ->
      validateRequest (signupSchema isEmail) (JObj body) query params = inr found ->
      issue ∈ found ->
      path issue <> affiliationPath).
Proof.
  split; [|split].
  - intros isEmail signup body query params users Hrole Hblank.
    destruct (signupBody_privileged_blank isEmail body Hrole Hblank) as [Hst _].
    unfold signupRoute. rewrite validateRequest_signup. simpl.
    destruct (signupBody isEmail ["body"] (JObj body)) as [st v found]. simpl in *.
    destruct st; [done| |]; eauto.
  - intros isEmail body query params Hrole Hblank Htyped.
    destruct (signupBody_privileged_blank isEmail body Hrole Hblank) as [Hst Hissue].
    assert (getField body "churchSelection" = JUndefined
            \/ exists s, getField body "churchSelection" = JStr s) as Hcs.
    { destruct Hblank as [?|(s & ? & _)]; eauto. }
    specialize (Hissue (signupBody_typed isEmail body Htyped (or_introl Hrole) Hcs)).
    rewrite validateRequest_signup. simpl.
    destruct (signupBody isEmail ["body"] (JObj body)) as [st v found]. simpl in *.
    exists found, affiliationIssue.
    destruct st; [done| |]; auto.
  - intros isEmail body query params found issue Hrole Hcs Hval Hin Hpath.
    rewrite validateRequest_signup in Hval. simpl in Hval.
    assert (issue ∈ issues (signupBody isEmail ["body"] (JObj body))) as Hsrc.
    { destruct (signupBody isEmail ["body"] (JObj body)) as [st v found']. simpl in *.
      destruct st; try discriminate; by injection Hval as <-. }
    apply signupBody_issues in Hsrc as [(entry & Hentry & Hissue)|(_ & _ & Hrule)].
    + pose proof (signupBodyShape_emitsHere isEmail) as Hall.
      rewrite Forall_forall in Hall.
      pose proof (Hall entry Hentry _ _ _ Hissue) as Hp.
      rewrite Hpath in Hp. unfold affiliationPath in Hp. simpl in Hp.
      injection Hp as Hkey.
      unfold signupBodyShape in Hentry.
      repeat (apply elem_of_cons in Hentry as [->|Hentry]; [simpl in Hkey; try discriminate|]).
      * destruct (churchSelection_parsed isEmail (["body"] ++ ["churchSelection"]) _ Hcs)
          as (Hnone & _ & _).
        simpl in Hissue. simpl in Hnone. rewrite Hnone in Hissue.
        by apply elem_of_nil in Hissue.
      * by apply elem_of_nil in Hentry.
    + unfold churchSelectionRule in Hrule.
      rewrite !parsed_role, Hrole in Hrule. simpl in Hrule. discriminate.
Qed.

Lemma privileged_signup_requires_affiliation_witness :
  (exists found : list ZodIssue,
      signupRoute anyEmail sampleSignup (JObj pastorWithoutChurch) JUndefined JUndefined
        sampleUsers
      = (sampleUsers, ValidationFailed 400 found))
  /\ (exists (found : list ZodIssue) (issue : ZodIssue),
        validateRequest (signupSchema anyEmail) (JObj pastorWithoutChurch)
          JUndefined JUndefined = inr found
        /\ issue ∈ found
        /\ path issue = affiliationPath)
  /\ path shortPasswordIssue <> affiliationPath.
Proof.
  split; [|split].
  - apply (proj1 privileged_signup_requires_affiliation
             anyEmail sampleSignup pastorWithoutChurch JUndefined JUndefined sampleUsers).
    + left. reflexivity.
    + left. reflexivity.
  - apply (proj1 (proj2 privileged_signup_requires_affiliation)
             anyEmail pastorWithoutChurch JUndefined JUndefined).
    + left. reflexivity.
    + left. reflexivity.
    + repeat split; try (eexists; reflexivity). right. reflexivity.
  - apply (proj2 (proj2 privileged_signup_requires_affiliation)
             anyEmail userShortPassword JUndefined JUndefined
             [shortPasswordIssue] shortPasswordIssue).
    + reflexivity.
    + left. reflexivity.
    + vm_compute. reflexivity.
    + apply list_elem_of_here.
Defined.

(** C7, as the specification words it, fails: a pastor's signup with no
    affiliation and no first name, last name, email, password or
    language is turned down with five violations, none of them on the
    affiliation path, because the rule does not run on an aborted
    body. *)
Lemma privileged_signup_with_missing_fields :
  privilegedRole pastorOnly
  /\ affiliationMissingOrBlank pastorOnly
  /\ exists found : list ZodIssue,
       validateRequest (signupSchema anyEmail) (JObj pastorOnly) JUndefined JUndefined
       = inr found
       /\ path <$> found
          = [ ["body"; "firstName"]; ["body"; "lastName"]; ["body"; "email"];
              ["body"; "password"]; ["body"; "language"] ]
       /\ affiliationPath ∉ path <$> found.
Proof.
  split; [left; reflexivity|]. split; [left; reflexivity|].
  eexists. split; [vm_compute; reflexivity|]. split; [reflexivity|].
  simpl. unfold affiliationPath. intros H.
  repeat (apply elem_of_cons in H as [H|H]; [discriminate H|]).
  by apply elem_of_nil in H.
Qed.

(** A user's signup without affiliation validates. *)
Example plain_user_validates :
  validateRequest (signupSchema anyEmail) (JObj plainUser) JUndefined JUndefined = inl tt.
Proof. vm_compute. reflexivity. Qed.

(** ** The public listing *)

Lemma projectionPaths_id_name : projectionPaths "_id name" = ["_id"; "name"].
Proof. reflexivity. Qed.

Lemma project_dom (paths : list string) (record : gmap string JsValue) (key : string) :
  key ∈ dom (project paths record) -> key ∈ "_id" :: paths.
Proof.
  intros [x Hx]%elem_of_dom. unfold project in Hx.
  apply map_lookup_filter_Some in Hx as [_ Hkey]. exact Hkey.
Qed.

(** C9. Whatever the collection holds and whoever asks, every element
    of the public listing is a stored record cut down to its [_id] and
    [name]: it has no other field, and the two it has are the record's. *)
Theorem public_listing_exposes_id_and_name_only (w : World) :
  sent w = None ->
  exists items : list (gmap string JsValue),
    sent (public_churches w)
    = Some {| res_status := 200; res_body := JArr (JObj <$> items) |}
    /\ length items = size (churches w)
    /\ Forall (fun item =>
                 dom item ⊆ ({[ "_id"; "name" ]} : gset string)
                 /\ exists (key : ObjectId) (record : gmap string JsValue),
                      churches w !! key = Some record /\ item ⊆ record)
              items
    /\ churches (public_churches w) = churches w.
Proof.
  intros Hsent.
  exists (project (projectionPaths "_id name") <$> (map_to_list (churches w)).*2).
  unfold public_churches, getPublicChurchList, find, bind, res_json, res_status_json,
    log_op. simpl. rewrite Hsent. simpl.
  split; [reflexivity|]. split; [|split; [|reflexivity]].
  - rewrite !length_fmap. apply length_map_to_list.
  - apply Forall_fmap, Forall_fmap, Forall_forall.
    intros [key record] Hin%elem_of_map_to_list. simpl. split.
    + intros k Hk%project_dom. rewrite projectionPaths_id_name in Hk.
      rewrite elem_of_union, !elem_of_singleton.
      rewrite !elem_of_cons in Hk.
      destruct Hk as [->|[->|[->|Hk]]]; auto.
      by apply elem_of_nil in Hk.
    + exists key, record. split; [exact Hin|]. apply map_filter_subseteq.
Qed.

Lemma public_listing_exposes_id_and_name_only_witness :
  exists items : list (gmap string JsValue),
    sent (public_churches (freshWorld sampleChurches))
    = Some {| res_status := 200; res_body := JArr (JObj <$> items) |}
    /\ length items = size sampleChurches
    /\ Forall (fun item =>
                 dom item ⊆ ({[ "_id"; "name" ]} : gset string)
                 /\ exists (key : ObjectId) (record : gmap string JsValue),
                      sampleChurches !! key = Some record /\ item ⊆ record)
              items
    /\ churches (public_churches (freshWorld sampleChurches)) = sampleChurches.
Proof.
  apply (public_listing_exposes_id_and_name_only (freshWorld sampleChurches)).
  reflexivity.
Defined.

(** The sample church has thirteen fields; the listing shows two. *)
Example public_listing_of_sample :
  res_body <$> sent (public_churches (freshWorld sampleChurches))
  = Some (JArr [JObj {[ "_id" := JNum 7; "name" := JStr (js "Grace Chapel") ]}]).
Proof. vm_compute. reflexivity. Qed.

(** * Further properties of the code

    ** Nested deletion: what a request can and cannot change *)

Lemma splice1_at_most_one {A} (index : Num) (l : list A) :
  splice1 index l = l
  \/ exists i : nat, (i < length l)%nat /\ splice1 index l = delete i l.
Proof.
  unfold splice1.
  set (len := Z.of_nat (length l)).
  set (rel := toInteger index).
  set (start := if rel <? 0 then Z.max (len + rel) 0 else Z.min rel len).
  assert (0 <= start <= len) as Hstart.
  { subst start. destruct (Z.ltb_spec rel 0); lia. }
  destruct (decide (start = len)) as [Heq|Hne].
  - left. rewrite Heq.
    replace (Z.min (Z.max 1 0) (len - len)) with 0 by lia.
    rewrite Z.add_0_r. subst len. rewrite Nat2Z.id.
    by rewrite firstn_all, skipn_all, app_nil_r.
  - right. exists (Z.to_nat start). split; [subst len; lia|].
    replace (Z.min (Z.max 1 0) (len - start)) with 1 by lia.
    rewrite delete_take_drop. f_equal. f_equal. lia.
Qed.

(** Every run of the generic handler either leaves the collection as it
    was or replaces the named array of the target record by the array
    it spliced. *)
Lemma deleteNestedItem_effect (w : World) (params : DeleteItemParams)
    (arrayField : string) (indexParam : IndexParam) :
  churches (catchAsync (deleteNestedItem params arrayField indexParam) w) = churches w
  \/ exists (record : gmap string JsValue) (array : list JsValue),
       churches w !! churchId params = Some record
       /\ getField record arrayField = JArr array
       /\ churches (catchAsync (deleteNestedItem params arrayField indexParam) w)
          = <[churchId params :=
                <[arrayField := JArr (splice1 (parseIndex (indexParams params indexParam))
                                        array)]> record]> (churches w).
Proof.
  unfold deleteNestedItem.
  destruct (parseIndex (indexParams params indexParam)) as [|i] eqn:Hidx;
    run_handler; destruct (sent w) as [r|] eqn:Hsent; simpl;
    (destruct (churches w !! churchId params) as [record|] eqn:Hrec; simpl;
     rewrite ?Hsent; simpl; [|by left]);
    (destruct (getField record arrayField) as [| | | | |array|] eqn:Hfield; simpl;
     rewrite ?Hsent; simpl; try (by left)).
  all: try (destruct ((i <? 0) || (i >=? Z.of_nat (length array))); simpl;
            rewrite ?Hsent; simpl; try (by left)).
  all: destruct (isSchemaArray arrayField) eqn:Harr;
    [ right; exists record, array; repeat split; try done;
      rewrite (alter_lookup_insert _ _ _ record) by exact Hrec;
      unfold writePaths, spliceField; simpl; rewrite Harr; simpl;
      unfold getField; by rewrite lookup_insert_eq
    | left; apply alter_id; intros x _;
      unfold writePaths, spliceField; simpl; by rewrite Harr ].
Qed.

(** X1. A nested deletion never touches another church: whatever the
    request and however it ends, the set of stored ids is the same and
    every record under another id is as it was. *)
Theorem nested_deletion_leaves_other_churches (w : World) (params : DeleteItemParams)
    (arrayField : string) (indexParam : IndexParam) :
  let w' := catchAsync (deleteNestedItem params arrayField indexParam) w in
  dom (churches w') = dom (churches w)
  /\ forall other : ObjectId,
       other <> churchId params -> churches w' !! other = churches w !! other.
Proof.
  intros w'. subst w'.
  destruct (deleteNestedItem_effect w params arrayField indexParam)
    as [->|(record & array & Hrec & _ & ->)]; [done|].
  split.
  - rewrite dom_insert_L. apply elem_of_dom_2 in Hrec.
    by apply subseteq_union_1_L, singleton_subseteq_l.
  - intros other Hne. by rewrite lookup_insert_ne.
Qed.

(** X2. Inside the target record a nested deletion leaves every field
    but the named one as it was, the version key [__v] apart, which
    Mongoose increments when it saves a changed array and which is not
    followed here.  In the named field it removes at most one element:
    the array afterwards is the array before, or the array before
    without one of its positions.  This holds for every request, the
    ones answered 400 included. *)
Theorem nested_deletion_removes_at_most_one (w : World) (params : DeleteItemParams)
    (arrayField : string) (indexParam : IndexParam) (record : gmap string JsValue) :
  churches w !! churchId params = Some record ->
  let w' := catchAsync (deleteNestedItem params arrayField indexParam) w in
  exists record' : gmap string JsValue,
    churches w' !! churchId params = Some record'
    /\ (forall field : string,
          field <> arrayField -> field <> "__v" -> record' !! field = record !! field)
    /\ (record' !! arrayField = record !! arrayField
        \/ exists (array : list JsValue) (i : nat),
             getField record arrayField = JArr array
             /\ (i < length array)%nat
             /\ getField record' arrayField = JArr (delete i array)).
Proof.
  intros Hrec w'. subst w'.
  destruct (deleteNestedItem_effect w params arrayField indexParam)
    as [->|(record0 & array & Hrec0 & Hfield & ->)].
  - exists record. repeat split; try done. by left.
  - rewrite Hrec in Hrec0. injection Hrec0 as <-.
    eexists. split; [apply lookup_insert_eq|]. split.
    { intros field Hne _. by rewrite lookup_insert_ne. }
    destruct (splice1_at_most_one (parseIndex (indexParams params indexParam)) array)
      as [Hsame|(i & Hi & Hdel)].
    + left. rewrite Hsame, lookup_insert_eq. unfold getField in Hfield.
      destruct (record !! arrayField) as [v|]; simpl in Hfield; by subst.
    + right. exists array, i. repeat split; try done.
      unfold getField. rewrite lookup_insert_eq. simpl. by rewrite Hdel.
Qed.

Lemma nested_deletion_removes_at_most_one_witness :
  exists record' : gmap string JsValue,
    churches (delete_gallery (paramsFor 7 imageIndex (js "abc")) (freshWorld sampleChurches))
      !! 7%N = Some record'
    /\ (forall field : string,
          field <> "gallery" -> field <> "__v" -> record' !! field = sampleChurch !! field)
    /\ (record' !! "gallery" = sampleChurch !! "gallery"
        \/ exists (array : list JsValue) (i : nat),
             getField sampleChurch "gallery" = JArr array
             /\ (i < length array)%nat
             /\ getField record' "gallery" = JArr (delete i array)).
Proof.
  apply (nested_deletion_removes_at_most_one
           (freshWorld sampleChurches) (paramsFor 7 imageIndex (js "abc"))
           "gallery" imageIndex sampleChurch).
  reflexivity.
Defined.

(** X3. A nested deletion answered 404 or 500 has written nothing: the
    collection is unchanged and the only call made to it is the one
    lookup of the record. *)
Theorem not_found_or_bad_field_writes_nothing (w : World) (params : DeleteItemParams)
    (arrayField : string) (indexParam : IndexParam) :
  sent w = None ->
  let w' := catchAsync (deleteNestedItem params arrayField indexParam) w in
  statusOf w' = Some 404 \/ statusOf w' = Some 500 ->
  churches w' = churches w
  /\ oplog w' = oplog w ++ [OpFindById (churchId params)].
Proof.
  intros Hsent w'. subst w'. unfold deleteNestedItem.
  destruct (parseIndex (indexParams params indexParam)) as [|i];
    run_handler; rewrite ?Hsent; simpl;
    (destruct (churches w !! churchId params) as [record|]; simpl;
     rewrite ?Hsent; simpl; [|by intros [H|H]]);
    (destruct (getField record arrayField) as [| | | | |array|]; simpl;
     rewrite ?Hsent; simpl; try (by intros [H|H])).
  destruct ((i <? 0) || (i >=? Z.of_nat (length array))); simpl;
    rewrite ?Hsent; simpl; by intros [H|H].
Qed.

Lemma not_found_or_bad_field_writes_nothing_witness :
  churches (delete_live (paramsFor 8 liveIndex (js "0")) (freshWorld sampleChurches))
  = sampleChurches
  /\ oplog (delete_live (paramsFor 8 liveIndex (js "0")) (freshWorld sampleChurches))
     = [OpFindById 8%N].
Proof.
  apply (not_found_or_bad_field_writes_nothing
           (freshWorld sampleChurches) (paramsFor 8 liveIndex (js "0"))
           "liveServices" liveIndex).
  - reflexivity.
  - left. vm_compute. reflexivity.
Defined.

(** ** Index strings *)

Lemma isDigit_range (c : N) : isDigit c = true -> (48 <= c <= 57)%N.
Proof.
  unfold isDigit. intros [H1 H2]%andb_true_iff.
  apply N.leb_le in H1, H2. lia.
Qed.

Lemma digit_not_whitespace (c : N) : isDigit c = true -> isStrWhiteSpaceChar c = false.
Proof.
  intros H%isDigit_range. unfold isStrWhiteSpaceChar. simpl.
  repeat match goal with
         | |- context [N.eqb c ?k] =>
             replace (N.eqb c k) with false by (symmetry; apply N.eqb_neq; lia)
         end.
  simpl. apply andb_false_iff. left. apply N.leb_gt. lia.
Qed.

Lemma digitsPrefix_app (ds suffix : jsstring) :
  Forall (fun c => isDigit c = true) ds ->
  (forall c rest, suffix = c :: rest -> isDigit c = false) ->
  digitsPrefix (ds ++ suffix) = ds.
Proof.
  intros Hds Hsuffix. induction Hds as [|d ds Hd _ IH].
  - destruct suffix as [|c rest]; [reflexivity|].
    change (digitsPrefix ([] ++ c :: rest))
      with (if isDigit c then c :: digitsPrefix rest else []).
    by rewrite (Hsuffix c rest eq_refl).
  - change (digitsPrefix ((d :: ds) ++ suffix))
      with (if isDigit d then d :: digitsPrefix (ds ++ suffix) else []).
    by rewrite Hd, IH.
Qed.

Lemma digitsValue_from (ds : jsstring) (acc : Z) :
  0 <= acc ->
  Forall (fun c => isDigit c = true) ds ->
  0 <= fold_left (fun acc c => 10 * acc + (Z.of_N c - 0x30)) ds acc.
Proof.
  intros Hacc Hds. revert acc Hacc.
  induction Hds as [|d ds Hd _ IH]; intros acc Hacc; simpl; [exact Hacc|].
  apply IH. apply isDigit_range in Hd. lia.
Qed.

Lemma unsigned_head (d : N) (rest : jsstring) :
  isDigit d = true ->
  match d :: rest with
  | 0x2D%N :: rest' => (-1, rest')
  | 0x2B%N :: rest' => (1, rest')
  | _ => (1, d :: rest)
  end = (1, d :: rest).
Proof.
  intros H%isDigit_range.
  destruct d as [|p]; [reflexivity|].
  do 6 (destruct p as [p|p|]; try reflexivity; try lia).
Qed.

(** X4. The index of a nested deletion is read leniently: a string made
    of decimal digits followed by anything that does not start with a
    digit (["1abc"], ["1.9"], ["2 "]) is the index the digits spell, a
    number that is not negative.  This is stated for digits that spell
    at most 2^53, the range in which a JavaScript number is the integer
    itself. *)
Theorem index_digits_then_text (ds suffix : jsstring) :
  ds <> [] ->
  Forall (fun c => isDigit c = true) ds ->
  digitsValue ds <= 2 ^ 53 ->
  (forall c rest, suffix = c :: rest -> isDigit c = false) ->
  parseIndex (Some (ds ++ suffix)) = Int (digitsValue ds)
  /\ 0 <= digitsValue ds.
Proof.
  intros Hne Hds _ Hsuffix. split; [|by apply digitsValue_from].
  destruct ds as [|d ds]; [done|].
  apply Forall_cons in Hds as [Hd Hds].
  simpl. unfold parseInt. simpl.
  rewrite (digit_not_whitespace d Hd).
  pose proof (unsigned_head d (ds ++ suffix) Hd) as Hsign.
  destruct (match d :: ds ++ suffix with
            | 0x2D%N :: rest' => (-1, rest')
            | 0x2B%N :: rest' => (1, rest')
            | _ => (1, d :: ds ++ suffix)
            end) as [sign rest].
  injection Hsign as -> ->.
  change (d :: ds ++ suffix) with ((d :: ds) ++ suffix).
  rewrite digitsPrefix_app by (try apply Forall_cons; done).
  f_equal. lia.
Qed.

Lemma index_digits_then_text_witness :
  parseIndex (Some (js "1" ++ js ".9")) = Int (digitsValue (js "1"))
  /\ 0 <= digitsValue (js "1").
Proof.
  apply (index_digits_then_text (js "1") (js ".9")).
  - discriminate.
  - repeat constructor.
  - vm_compute. discriminate.
  - intros c rest [= <- <-]. reflexivity.
Defined.

(** With index "1abc" the song route removes the second of three songs. *)
Example delete_song_lenient_index :
  (fun fields => getField fields "songs")
    <$> churches (delete_song (paramsFor 7 songIndex (js "1abc"))
                    (freshWorld sampleChurches)) !! 7%N
  = Some (JArr [JStr (js "a"); JStr (js "c")]).
Proof. vm_compute. reflexivity. Qed.

(** ** Deacons and trustees *)

(** X5. The deacon and trustee handlers never change a stored record.
    The array they splice sits inside [securities], which the schema
    declares [type: Object]; the change stays in memory, no path is
    marked modified, and [save] has nothing to write.  For an index in
    range the routes still answer 200 and report the item deleted. *)
Theorem securities_deletion_is_not_persisted :
  (forall (w : World) (params : DeleteItemParams) (key : string)
          (indexParam : IndexParam) (invalidIndex dataInvalid deleted : string),
      churches (catchAsync (deleteSecuritiesItem params key indexParam
                              invalidIndex dataInvalid deleted) w)
      = churches w)
  /\
  (forall (w : World) (params : DeleteItemParams) (key : string)
          (indexParam : IndexParam) (invalidIndex dataInvalid deleted : string)
          (record : gmap string JsValue) (array : list JsValue) (i : Z),
      sent w = None ->
      churches w !! churchId params = Some record ->
      securitiesMembers record key = Some array ->
      parseIndex (indexParams params indexParam) = Int i ->
      0 <= i < Z.of_nat (length array) ->
      let w' := catchAsync (deleteSecuritiesItem params key indexParam
                              invalidIndex dataInvalid deleted) w in
      sent w' = Some {| res_status := 200; res_body := messageBody deleted |}
      /\ oplog w' = oplog w ++ [OpFindById (churchId params);
                                OpSave (churchId params) []]
      /\ churches w' !! churchId params = Some record).
Proof.
  split.
  - intros w params key indexParam invalidIndex dataInvalid deleted.
    unfold deleteSecuritiesItem.
    destruct (parseIndex (indexParams params indexParam)) as [|i];
      run_handler; destruct (sent w) as [r|] eqn:Hsent; simpl;
      (destruct (churches w !! churchId params) as [record|]; simpl;
       rewrite ?Hsent; [|reflexivity]);
      (destruct (getField record "securities") as [| |b|n|s|a|o]; simpl;
       try rewrite Hsent; simpl; try reflexivity;
       try (destruct (getField o key) as [| | | | |members|]; simpl);
       repeat match goal with
         | |- context [bool_decide ?P] => destruct (bool_decide P); simpl
         | |- context [Z.eqb ?a ?b] => destruct (Z.eqb a b); simpl
         | |- context [negb ?b] => destruct b; simpl
         | |- context [(?a <? ?b) || ?c] => destruct ((a <? b) || c); simpl
         | |- _ => progress (rewrite ?Hsent; simpl)
         end; try reflexivity;
       try (apply alter_id; intros; reflexivity)).
  - intros w params key indexParam invalidIndex dataInvalid deleted record array i
           Hsent Hrec Hmembers Hidx Hi w'. subst w'.
    unfold securitiesMembers in Hmembers.
    destruct (getField record "securities") as [| | | | | |o] eqn:Hsec; try discriminate.
    destruct (getField o key) as [| | | | |members|] eqn:Hkey; try discriminate.
    injection Hmembers as ->.
    unfold deleteSecuritiesItem. rewrite Hidx.
    run_handler. rewrite Hrec. simpl. rewrite Hsec. simpl. rewrite Hkey. simpl.
    destruct (Z.ltb_spec i 0) as [?|_]; [lia|].
    unfold Z.geb. destruct (Z.compare_spec i (Z.of_nat (length array))) as [?|_|?]; try lia.
    simpl. rewrite Hsent. simpl. split; [reflexivity|]. split.
    + by rewrite <- app_assoc.
    + rewrite lookup_alter_eq, Hrec. reflexivity.
Qed.

Lemma securities_deletion_is_not_persisted_witness :
  let w' := delete_deacon (paramsFor 7 deaconIndex (js "1")) (freshWorld sampleChurches) in
  sent w' = Some {| res_status := 200;
                    res_body := messageBody "Deacon deleted successfully" |}
  /\ oplog w' = [OpFindById 7%N; OpSave 7%N []]
  /\ churches w' !! 7%N = Some sampleChurch.
Proof.
  apply (proj2 securities_deletion_is_not_persisted
           (freshWorld sampleChurches) (paramsFor 7 deaconIndex (js "1"))
           "deacons" deaconIndex "Invalid deacon index"
           "Deacons data not found or invalid" "Deacon deleted successfully"
           sampleChurch threeItems 1).
  - reflexivity.
  - reflexivity.
  - reflexivity.
  - reflexivity.
  - simpl. lia.
Defined.

(** ** The authenticator and the admin gate *)

Lemma split_without_separator (sep : N) (s : jsstring) :
  sep ∉ s -> split sep s = [s].
Proof.
  induction s as [|c s IH]; intros Hnot; [reflexivity|].
  apply not_elem_of_cons in Hnot as [Hne Hrest]. simpl.
  destruct (N.eqb_spec c sep) as [->|_]; [done|].
  by rewrite IH.
Qed.

Lemma split_at_first_separator (sep : N) (a b : jsstring) :
  sep ∉ a -> split sep (a ++ sep :: b) = a :: split sep b.
Proof.
  induction a as [|c a IH]; intros Hnot; simpl.
  - by rewrite N.eqb_refl.
  - apply not_elem_of_cons in Hnot as [Hne Hrest].
    destruct (N.eqb_spec c sep) as [->|_]; [done|].
    by rewrite IH.
Qed.

Lemma split_pieces_without_separator (sep : N) (s : jsstring) :
  Forall (fun piece => sep ∉ piece) (split sep s).
Proof.
  induction s as [|c s IH]; simpl.
  - repeat constructor. apply not_elem_of_nil.
  - destruct (N.eqb_spec c sep) as [->|Hne].
    + constructor; [apply not_elem_of_nil|exact IH].
    + destruct (split sep s) as [|piece rest].
      * repeat constructor. by intros [->|H%elem_of_nil]%elem_of_cons.
      * apply Forall_cons in IH as [Hpiece Hrest].
        constructor; [|exact Hrest].
        by intros [->|H]%elem_of_cons.
Qed.

Lemma bearer_without_space : 0x20%N ∉ js "Bearer".
Proof.
  intros H. repeat (apply elem_of_cons in H as [H|H]; [discriminate H|]).
  by apply elem_of_nil in H.
Qed.

(** X6. What the authenticator reads from a well-formed header.  A
    token without a space, sent as ["Bearer " ++ token], is the token
    handed to [jwt.verify]; anything after a further space is ignored;
    and no token the authenticator extracts ever contains a space. *)
Theorem bearer_token_round_trip :
  (forall (token rest : jsstring),
      0x20%N ∉ token ->
      extractToken (Some (js "Bearer " ++ token)) = Some token
      /\ extractToken (Some (js "Bearer " ++ token ++ 0x20%N :: rest)) = Some token)
  /\
  (forall (verify : jsstring -> VerifyResult) (castObjectId : JsValue -> option ObjectId)
          (users : gmap ObjectId User) (token : jsstring),
      token <> [] ->
      0x20%N ∉ token ->
      head (snd (authenticateUser verify castObjectId users
                   (Some (js "Bearer " ++ token))))
      = Some (EvVerify token))
  /\
  (forall (authorization : option jsstring) (token : jsstring),
      extractToken authorization = Some token -> 0x20%N ∉ token).
Proof.
  assert (forall token rest : jsstring,
             0x20%N ∉ token ->
             extractToken (Some (js "Bearer " ++ token)) = Some token
             /\ extractToken (Some (js "Bearer " ++ token ++ 0x20%N :: rest)) = Some token)
    as Hextract.
  { intros token rest Hnot. unfold extractToken.
    change (js "Bearer " ++ token) with (js "Bearer" ++ 0x20%N :: token).
    change (js "Bearer " ++ token ++ 0x20%N :: rest)
      with (js "Bearer" ++ 0x20%N :: (token ++ 0x20%N :: rest)).
    rewrite !(split_at_first_separator _ _ _ bearer_without_space).
    rewrite split_without_separator by exact Hnot.
    rewrite split_at_first_separator by exact Hnot.
    split; reflexivity. }
  split; [exact Hextract|]. split.
  - intros verify castObjectId users token Hne Hnot.
    destruct (Hextract token [] Hnot) as [Htoken _].
    unfold authenticateUser. rewrite Htoken.
    destruct token as [|c token]; [done|].
    destruct (verify (c :: token)) as [payload|err]; [|reflexivity].
    destruct payload as [| | | | | |decoded]; try reflexivity.
    destruct (bool_decide (is_Some (decoded !! "id"))); [|reflexivity].
    destruct (castObjectId (getField decoded "id")) as [uid|]; [|reflexivity].
    by destruct (users !! uid).
  - intros authorization token. unfold extractToken.
    destruct authorization as [header|]; [|discriminate].
    destruct (negb (bool_decide (header = [])) && startsWith header (js "Bearer"));
      [|discriminate].
    intros Hpiece.
    pose proof (split_pieces_without_separator 0x20%N header) as Hall.
    rewrite Forall_lookup in Hall. exact (Hall _ _ Hpiece).
Qed.

Lemma bearer_token_round_trip_witness :
  (extractToken (Some (js "Bearer " ++ js "alice-token")) = Some (js "alice-token")
   /\ extractToken (Some (js "Bearer " ++ js "alice-token" ++ 0x20%N :: js "junk"))
      = Some (js "alice-token"))
  /\ head (snd (authenticateUser sampleVerify castNumericId sampleUsers
                  (Some (js "Bearer " ++ js "alice-token"))))
     = Some (EvVerify (js "alice-token"))
  /\ 0x20%N ∉ js "alice-token".
Proof.
  assert (0x20%N ∉ js "alice-token") as Hnot.
  { intros H. repeat (apply elem_of_cons in H as [H|H]; [discriminate H|]).
    by apply elem_of_nil in H. }
  split; [|split].
  - apply (proj1 bearer_token_round_trip (js "alice-token") (js "junk")). exact Hnot.
  - apply (proj1 (proj2 bearer_token_round_trip)
             sampleVerify castNumericId sampleUsers (js "alice-token")).
    + discriminate.
    + exact Hnot.
  - apply (proj2 (proj2 bearer_token_round_trip)
             (Some (js "Bearer alice-token")) (js "alice-token")).
    reflexivity.
Defined.

(** X7. When the authenticator lets a request through, the identity it
    leaves on the request is a stored one: the token verified, its
    payload carried an id, a user is stored under that id, and the id
    and email on the request are that user's. *)
Theorem authenticated_identity_is_stored
    (verify : jsstring -> VerifyResult) (castObjectId : JsValue -> option ObjectId)
    (users : gmap ObjectId User) (authorization : option jsstring) (u : ReqUser) :
  fst (authenticateUser verify castObjectId users authorization) = Proceed u ->
  exists (token : jsstring) (decoded : gmap string JsValue) (user : User),
    extractToken authorization = Some token
    /\ verify token = Decoded (JObj decoded)
    /\ castObjectId (getField decoded "id") = Some (id u)
    /\ users !! id u = Some user
    /\ user_email u = email user
    /\ snd (authenticateUser verify castObjectId users authorization)
       = [EvVerify token; EvFindUser (id u)].
Proof.
  intros Hauth.
  destruct (authenticateUser_proceeds _ _ _ _ _ Hauth)
    as (token & decoded & user & Htoken & Hne & Hverify & Hid & Hcast & Huser & Hemail).
  exists token, decoded, user. repeat split; try done.
  unfold authenticateUser. rewrite Htoken.
  destruct token as [|c token]; [done|].
  rewrite Hverify, (bool_decide_eq_true_2 _ Hid), Hcast, Huser. reflexivity.
Qed.

Lemma authenticated_identity_is_stored_witness :
  exists (token : jsstring) (decoded : gmap string JsValue) (user : User),
    extractToken (Some (js "Bearer ruth-token")) = Some token
    /\ sampleVerify token = Decoded (JObj decoded)
    /\ castNumericId (getField decoded "id") = Some 2%N
    /\ sampleUsers !! 2%N = Some user
    /\ js "ruth@example.org" = email user
    /\ snd (authenticateUser sampleVerify castNumericId sampleUsers
              (Some (js "Bearer ruth-token")))
       = [EvVerify token; EvFindUser 2%N].
Proof.
  apply (authenticated_identity_is_stored
           sampleVerify castNumericId sampleUsers (Some (js "Bearer ruth-token"))
           {| id := 2%N; user_email := js "ruth@example.org" |}).
  vm_compute. reflexivity.
Defined.

(** X8. The user collection is read at most once, and only for a token
    that verified: a lookup under an id appears in the trace only as
    the second event, after the verification of a token whose payload
    carries that id. *)
Theorem user_lookup_follows_verification
    (verify : jsstring -> VerifyResult) (castObjectId : JsValue -> option ObjectId)
    (users : gmap ObjectId User) (authorization : option jsstring) (uid : ObjectId) :
  EvFindUser uid ∈ snd (authenticateUser verify castObjectId users authorization) ->
  exists (token : jsstring) (decoded : gmap string JsValue),
    snd (authenticateUser verify castObjectId users authorization)
    = [EvVerify token; EvFindUser uid]
    /\ verify token = Decoded (JObj decoded)
    /\ castObjectId (getField decoded "id") = Some uid.
Proof.
  unfold authenticateUser.
  destruct (extractToken authorization) as [[|c token]|]; simpl;
    try (intros H; by apply elem_of_nil in H).
  destruct (verify (c :: token)) as [payload|err] eqn:Hverify; simpl.
  - destruct payload as [| | | | | |decoded]; simpl;
      try (intros [H|H%elem_of_nil]%elem_of_cons; [discriminate H|done]).
    destruct (bool_decide (is_Some (decoded !! "id"))); simpl;
      try (intros [H|H%elem_of_nil]%elem_of_cons; [discriminate H|done]).
    destruct (castObjectId (getField decoded "id")) as [uid'|] eqn:Hcast; simpl;
      try (intros [H|H%elem_of_nil]%elem_of_cons; [discriminate H|done]).
    destruct (users !! uid'); simpl;
      (intros [H|[H|H%elem_of_nil]%elem_of_cons]%elem_of_cons;
       [discriminate H| |done]);
      injection H as ->; by exists (c :: token), decoded.
  - intros [H|H%elem_of_nil]%elem_of_cons; [discriminate H|done].
Qed.

Lemma user_lookup_follows_verification_witness :
  exists (token : jsstring) (decoded : gmap string JsValue),
    snd (authenticateUser sampleVerify castNumericId sampleUsers
           (Some (js "Bearer alice-token")))
    = [EvVerify token; EvFindUser 1%N]
    /\ sampleVerify token = Decoded (JObj decoded)
    /\ castNumericId (getField decoded "id") = Some 1%N.
Proof.
  apply (user_lookup_follows_verification
           sampleVerify castNumericId sampleUsers (Some (js "Bearer alice-token")) 1%N).
  vm_compute. apply list_elem_of_further, list_elem_of_here.
Defined.

(** X9. Every [AppError] the authenticator hands to [next] carries
    status 401, and the admin gate adds only 403 to that. *)
Theorem authentication_failures_are_401_or_403 :
  (forall (verify : jsstring -> VerifyResult) (castObjectId : JsValue -> option ObjectId)
          (users : gmap ObjectId User) (authorization : option jsstring) (e : AppError),
      fst (authenticateUser verify castObjectId users authorization) = Fail e ->
      statusCode e = 401)
  /\
  (forall (verify : jsstring -> VerifyResult) (castObjectId : JsValue -> option ObjectId)
          (users : gmap ObjectId User) (authorization : option jsstring) (e : AppError),
      adminGate verify castObjectId users authorization = Fail e ->
      statusCode e = 401 \/ statusCode e = 403).
Proof.
  assert (forall verify castObjectId users authorization e,
             fst (authenticateUser verify castObjectId users authorization) = Fail e ->
             statusCode e = 401) as Hauth.
  { intros verify castObjectId users authorization e. unfold authenticateUser.
    destruct (extractToken authorization) as [[|c token]|]; simpl;
      try (by intros [= <-]).
    destruct (verify (c :: token)) as [payload|err]; simpl.
    - destruct payload as [| | | | | |decoded]; simpl; try (by intros [= <-]).
      destruct (bool_decide (is_Some (decoded !! "id"))); simpl; try (by intros [= <-]).
      destruct (castObjectId (getField decoded "id")) as [uid|]; simpl; try discriminate.
      destruct (users !! uid); simpl; [discriminate|by intros [= <-]].
    - destruct (instanceOf err JsonWebTokenError); [by intros [= <-]|].
      destruct (instanceOf err TokenExpiredError); by intros [= <-]. }
  split; [exact Hauth|].
  intros verify castObjectId users authorization e. unfold adminGate.
  destruct (fst (authenticateUser verify castObjectId users authorization))
    as [u|e'|v] eqn:Hfst; try discriminate.
  - unfold isAdmin. destruct (users !! id u) as [user|]; [|intros [= <-]; by left].
    destruct (admin user); simpl; [discriminate|intros [= <-]; by right].
  - intros [= <-]. left. by eapply Hauth.
Qed.

Lemma authentication_failures_are_401_or_403_witness :
  statusCode notLoggedIn = 401
  /\ (statusCode noPermission = 401 \/ statusCode noPermission = 403).
Proof.
  split.
  - apply (proj1 authentication_failures_are_401_or_403
             sampleVerify castNumericId sampleUsers None notLoggedIn).
    reflexivity.
  - apply (proj2 authentication_failures_are_401_or_403
             sampleVerify castNumericId sampleUsers (Some (js "Bearer alice-token"))
             noPermission).
    vm_compute. reflexivity.
Defined.

(** X10. The gate of the admin routes lets a request through exactly
    when its header yields a token that verifies, the payload carries
    an id under which a user is stored, and that user's stored flag is
    true. *)
Theorem admin_gate_passes_iff
    (verify : jsstring -> VerifyResult) (castObjectId : JsValue -> option ObjectId)
    (users : gmap ObjectId User) (authorization : option jsstring) :
  adminGate verify castObjectId users authorization = Proceed tt
  <-> exists (token : jsstring) (decoded : gmap string JsValue)
             (uid : ObjectId) (user : User),
        extractToken authorization = Some token
        /\ token <> []
        /\ verify token = Decoded (JObj decoded)
        /\ is_Some (decoded !! "id")
        /\ castObjectId (getField decoded "id") = Some uid
        /\ users !! uid = Some user
        /\ admin user = true.
Proof.
  split.
  - unfold adminGate.
    destruct (fst (authenticateUser verify castObjectId users authorization))
      as [u|e|v] eqn:Hauth; try discriminate.
    destruct (authenticateUser_proceeds _ _ _ _ _ Hauth)
      as (token & decoded & user & Htoken & Hne & Hverify & Hid & Hcast & Huser & _).
    unfold isAdmin. rewrite Huser.
    destruct (admin user) eqn:Hadmin; simpl; [|discriminate].
    intros _. by exists token, decoded, (id u), user.
  - intros (token & decoded & uid & user & Htoken & Hne & Hverify & Hid & Hcast
            & Huser & Hadmin).
    unfold adminGate, authenticateUser. rewrite Htoken.
    destruct token as [|c token]; [done|].
    rewrite Hverify, (bool_decide_eq_true_2 _ Hid), Hcast, Huser. simpl.
    unfold isAdmin. simpl. by rewrite Huser, Hadmin.
Qed.

(** ** Approvals *)

Lemma setAdmin_not_pending (u : User) : isPending (setAdmin u) = false.
Proof. unfold isPending. simpl. apply andb_false_r. Qed.

(** X11. Approving a user takes exactly that user off the list of
    pending approvals: the list after the approval is the list before
    without the approved id, whoever else is stored. *)
Theorem approval_clears_pending (users : gmap ObjectId User) (userId : ObjectId) :
  pendingUsers (fst (approveUser userId users)) = delete userId (pendingUsers users).
Proof.
  unfold approveUser, pendingUsers.
  destruct (users !! userId) as [u|] eqn:Hu; simpl.
  - apply map_eq. intros k. apply option_eq. intros v.
    rewrite map_lookup_filter_Some. simpl.
    destruct (decide (k = userId)) as [->|Hne].
    + rewrite lookup_alter_eq, Hu, lookup_delete_eq. simpl. split; [|done].
      intros [[= <-] Hp]. by rewrite setAdmin_not_pending in Hp.
    + rewrite lookup_alter_ne, lookup_delete_ne by done.
      by rewrite map_lookup_filter_Some.
  - symmetry. apply delete_id.
    apply map_lookup_filter_None. left. exact Hu.
Qed.

(** X12. An approval leaves the set of stored ids and every other user
    as they were; the approved user keeps name, email, role and
    affiliation, and the flag is true afterwards.  A user id that is no
    ObjectId ends in a [CastError], and an id under which no user is
    stored in the 404 error; both leave the collection as it was.  The
    modification time that the update stamps on the approved user is
    not among the fields followed here. *)
Theorem approval_keeps_profile (castId : jsstring -> CastResult)
    (rawUserId : jsstring) (users : gmap ObjectId User) :
  let users' := fst (approveUserRequest castId rawUserId users) in
  dom users' = dom users
  /\ match castId rawUserId with
     | CastFailed _ _ =>
         users' = users
         /\ snd (approveUserRequest castId rawUserId users) = CastError (JStr rawUserId)
     | CastOk userId =>
         (forall other : ObjectId, other <> userId -> users' !! other = users !! other)
         /\ match users !! userId with
            | Some u =>
                exists u' : User,
                  users' !! userId = Some u'
                  /\ admin u' = true
                  /\ firstName u' = firstName u /\ lastName u' = lastName u
                  /\ email u' = email u /\ role u' = role u
                  /\ churchSelection u' = churchSelection u
            | None =>
                users' = users
                /\ snd (approveUserRequest castId rawUserId users)
                   = Fail {| message := "No user found with that ID"; statusCode := 404 |}
            end
     end.
Proof.
  intros users'. subst users'. unfold approveUserRequest, approveUser.
  destruct (castId rawUserId) as [userId|value msg]; [|done].
  destruct (users !! userId) as [u|] eqn:Hu; simpl.
  - split; [apply dom_alter_L|]. split.
    + intros other Hne. by rewrite lookup_alter_ne.
    + exists (setAdmin u). rewrite lookup_alter_eq, Hu. by repeat split.
  - by repeat split.
Qed.

(** ** What the schemas accept *)

Lemma trimStart_head (s : jsstring) :
  trimStart s = []
  \/ exists c rest, trimStart s = c :: rest /\ isStrWhiteSpaceChar c = false.
Proof.
  induction s as [|c s IH]; [by left|].
  simpl. destruct (isStrWhiteSpaceChar c) eqn:Hc; [exact IH|].
  right. by exists c, s.
Qed.

Lemma trimStart_fixed (c : N) (rest : jsstring) :
  isStrWhiteSpaceChar c = false -> trimStart (c :: rest) = c :: rest.
Proof. intros H. simpl. by rewrite H. Qed.

Lemma trimStart_keeps_last (xs : jsstring) (c : N) :
  isStrWhiteSpaceChar c = false -> exists ys, trimStart (xs ++ [c]) = ys ++ [c].
Proof.
  intros Hc. induction xs as [|x xs IH]; simpl.
  - rewrite Hc. by exists [].
  - destruct (isStrWhiteSpaceChar x); [exact IH|]. by exists (x :: xs).
Qed.

Lemma trim_idempotent (s : jsstring) : trim (trim s) = trim s.
Proof.
  unfold trim.
  assert (forall u, trimEnd (trimEnd u) = trimEnd u) as Hend.
  { intros u. unfold trimEnd. rewrite reverse_involutive.
    destruct (trimStart_head (reverse u)) as [->|(c & rest & -> & Hc)]; [done|].
    by rewrite trimStart_fixed. }
  destruct (trimStart_head s) as [->|(c & rest & -> & Hc)]; [reflexivity|].
  assert (exists tail, trimEnd (c :: rest) = c :: tail) as [tail Htail].
  { unfold trimEnd. rewrite reverse_cons.
    destruct (trimStart_keeps_last (reverse rest) c Hc) as [ys ->].
    rewrite reverse_app. simpl. by eexists. }
  rewrite Htail, trimStart_fixed by exact Hc.
  rewrite <- Htail. apply Hend.
Qed.

Lemma mergeStatus_valid (a b : ParseStatus) :
  mergeStatus a b = valid <-> a = valid /\ b = valid.
Proof. destruct a, b; simpl; split; try discriminate; try (by intros [? ?]); done. Qed.

Lemma parseShape_valid (shape : list (string * Schema)) (here : list string)
    (data : gmap string JsValue) :
  (parseShape shape here data).1.1 = valid
  <-> Forall (fun entry => status (entry.2 (here ++ [entry.1]) (getField data entry.1)) = valid)
             shape.
Proof.
  induction shape as [|[key f] rest IH]; simpl.
  - split; [intros _; apply Forall_nil_2|done].
  - destruct (parseShape rest here data) as [[st obj] found]. simpl in *.
    rewrite mergeStatus_valid, Forall_cons, IH. done.
Qed.

Lemma zString_min_valid (isEmail : jsstring -> bool) (req : option string)
    (n : nat) (msg : string) (here : list string) (v : JsValue) :
  status (zString isEmail req [CheckMin n msg] here v) = valid
  <-> exists s, v = JStr s /\ (n <= length s)%nat.
Proof.
  unfold zString. destruct v; simpl;
    try (split; [discriminate|by intros (? & ? & _)]).
  destruct (Nat.ltb_spec (length s) n); simpl.
  - split; [discriminate|]. intros (s' & [= <-] & Hle). lia.
  - split; [|done]. intros _. by exists s.
Qed.

Lemma zString_email_valid (isEmail : jsstring -> bool) (req : option string)
    (msg : string) (here : list string) (v : JsValue) :
  status (zString isEmail req [CheckEmail msg] here v) = valid
  <-> exists s, v = JStr s /\ isEmail s = true.
Proof.
  unfold zString. destruct v; simpl;
    try (split; [discriminate|by intros (? & ? & _)]).
  destruct (isEmail s) eqn:Hs; simpl.
  - split; [|done]. intros _. by exists s.
  - split; [discriminate|]. intros (s' & [= <-] & He). congruence.
Qed.

Lemma zEnum_valid (values : list string) (req inv : option string)
    (here : list string) (v : JsValue) :
  status (zEnum values req inv here v) = valid
  <-> exists s, v = JStr s /\ s ∈ js <$> values.
Proof.
  unfold zEnum. destruct v; simpl;
    try (split; [discriminate|by intros (? & ? & _)]).
  destruct (decide (s ∈ js <$> values)) as [Hin|Hnot].
  - rewrite bool_decide_eq_true_2 by done. simpl. split; [|done]. intros _. by exists s.
  - rewrite bool_decide_eq_false_2 by done. simpl.
    split; [discriminate|]. by intros (s' & [= <-] & Hin).
Qed.

Lemma optional_trimmed_valid (isEmail : jsstring -> bool) (here : list string)
    (v : JsValue) :
  status (zOptional (zString isEmail None [CheckTrim]) here v) = valid
  <-> v = JUndefined \/ exists s, v = JStr s.
Proof.
  destruct v; simpl; split; try discriminate; try (by intros [?|[? ?]]); eauto.
Qed.

Lemma language_values (s : jsstring) :
  s ∈ js <$> ["en"; "fr"] <-> s = js "en" \/ s = js "fr".
Proof.
  simpl. rewrite !elem_of_cons. split; [|tauto].
  intros [?|[?|H%elem_of_nil]]; tauto.
Qed.

Lemma role_values (s : jsstring) :
  s ∈ js <$> ["user"; "pastor"; "IT"] <-> s = js "user" \/ s = js "pastor" \/ s = js "IT".
Proof.
  simpl. rewrite !elem_of_cons. split; [|tauto].
  intros [?|[?|[?|H%elem_of_nil]]]; tauto.
Qed.

(** The verdict of [validateRequest] on a schema of the form
    [z.object({ body: f })]. *)
Lemma validateRequest_body (f : Schema) (body query params : JsValue) :
  validateRequest (zObject [("body", f)]) body query params
  = match status (f ["body"] body) with
    | valid => inl tt
    | dirty | aborted => inr (issues (f ["body"] body))
    end.
Proof.
  assert (getField {[ "body" := body; "query" := query; "params" := params ]} "body"
          = body) as Hbody.
  { unfold getField. by rewrite lookup_insert_eq. }
  unfold validateRequest, parseAsync, zObject. simpl.
  rewrite !Hbody, app_nil_r.
  destruct (f ["body"] body) as [st v found]. simpl.
  by destruct st.
Qed.

Lemma signupBody_valid (isEmail : jsstring -> bool) (body : gmap string JsValue) :
  status (signupBody isEmail ["body"] (JObj body)) = valid
  <-> (parseShape (signupBodyShape isEmail) ["body"] body).1.1 = valid
      /\ churchSelectionRule
           (JObj (parseShape (signupBodyShape isEmail) ["body"] body).1.2) = true.
Proof.
  unfold signupBody, zRefine, zObject.
  destruct (parseShape (signupBodyShape isEmail) ["body"] body) as [[st obj] found].
  simpl. destruct st; simpl;
    destruct (churchSelectionRule (JObj obj)); simpl;
    split; try discriminate; try done; by intros [? ?].
Qed.

(** X13. The signup schema, written out.  A request passes
    [validateRequest(signupSchema)] exactly when its body is an object
    with a non-empty first and last name, an email the email check
    accepts, a password of at least eight code units, a language of en
    or fr, and either the role user with an affiliation that is absent
    or any string, or the role pastor or IT with an affiliation that is
    not blank. *)
Theorem signup_is_accepted_iff (isEmail : jsstring -> bool) (body query params : JsValue) :
  validateRequest (signupSchema isEmail) body query params = inl tt
  <-> exists o : gmap string JsValue, body = JObj o /\ signupAccepts isEmail o.
Proof.
  rewrite validateRequest_signup. simpl.
  destruct body as [| | | | | |o];
    try (split; [discriminate|by intros (? & ? & _)]).
  transitivity (status (signupBody isEmail ["body"] (JObj o)) = valid).
  { destruct (status (signupBody isEmail ["body"] (JObj o)));
      split; try discriminate; done. }
  rewrite signupBody_valid, parseShape_valid.
  unfold churchSelectionRule. rewrite !parsed_role, !parsed_churchSelection.
  unfold signupBodyShape. rewrite !Forall_cons. simpl.
  rewrite !zString_min_valid, zString_email_valid, !zEnum_valid, optional_trimmed_valid.
  unfold signupAccepts, privilegedRole.
  split.
  - intros ((H1 & H2 & H3 & H4 & (l & Hl & Hlin) & (r & Hr & Hrin) & Hcs & _) & Hrule).
    exists o. split; [reflexivity|].
    apply language_values in Hlin. apply role_values in Hrin.
    repeat (split; [done|]).
    split; [destruct Hlin as [->| ->]; rewrite Hl; auto|].
    rewrite Hr in Hrule |- *.
    destruct Hrin as [->|[->| ->]].
    + left. split; [done|]. exact Hcs.
    + right. split; [by left|].
      destruct Hcs as [Hu|[s Hs]]; rewrite ?Hu, ?Hs in Hrule |- *;
        simpl in Hrule; [discriminate|].
      exists s. split; [done|]. rewrite trim_idempotent in Hrule.
      intros Hblank. rewrite Hblank in Hrule. simpl in Hrule. discriminate.
    + right. split; [by right|].
      destruct Hcs as [Hu|[s Hs]]; rewrite ?Hu, ?Hs in Hrule |- *;
        simpl in Hrule; [discriminate|].
      exists s. split; [done|]. rewrite trim_idempotent in Hrule.
      intros Hblank. rewrite Hblank in Hrule. simpl in Hrule. discriminate.
  - intros (o' & [= <-] & H1 & H2 & H3 & H4 & Hlang & Hrole).
    assert (forall s : jsstring, trim s <> [] ->
              truthy (JStr (trim s)) && (0 <? length (trim (trim s)))%nat = true)
      as Hfilled.
    { intros s Hs. rewrite trim_idempotent. simpl.
      rewrite bool_decide_eq_false_2 by done. simpl.
      apply Nat.ltb_lt. destruct (trim s); [done|simpl; lia]. }
    split.
    + repeat (split; [done|]).
      split.
      { destruct Hlang as [->| ->];
          (eexists; split; [reflexivity|apply language_values; auto]). }
      split.
      * destruct Hrole as [[-> _]|[[->| ->] _]];
          (eexists; split; [reflexivity|apply role_values; auto]).
      * split; [|apply Forall_nil_2].
        destruct Hrole as [[_ Hcs]|[_ (s & Hs & _)]]; [exact Hcs|eauto].
    + destruct Hrole as [[-> _]|[[->| ->] (s & -> & Hs)]]; simpl;
        [reflexivity|by apply Hfilled|by apply Hfilled].
Qed.

Example plain_user_is_accepted : signupAccepts anyEmail plainUser.
Proof.
  unfold signupAccepts. repeat split; try (eexists; split; [reflexivity|simpl; lia]).
  - eexists. split; reflexivity.
  - left. reflexivity.
  - left. split; [reflexivity|by left].
Qed.

Lemma loginBody_valid (isEmail : jsstring -> bool) (body : gmap string JsValue) :
  status (zObject (loginBodyShape isEmail) ["body"] (JObj body)) = valid
  <-> loginAccepts isEmail body.
Proof.
  unfold zObject.
  pose proof (parseShape_valid (loginBodyShape isEmail) ["body"] body) as Hvalid.
  destruct (parseShape (loginBodyShape isEmail) ["body"] body) as [[st obj] found].
  simpl in *. rewrite Hvalid. unfold loginBodyShape. rewrite !Forall_cons. simpl.
  rewrite zString_min_valid, zString_email_valid. unfold loginAccepts.
  split; [by intros (? & ? & _)|]. intros [? ?]. repeat split; try done.
Qed.

(** X14. The login schema, written out.  A request passes
    [validateRequest(loginSchema)] exactly when its body is an object
    whose email is a string the email check accepts and whose password
    is a non-empty string; the length of the password is not looked at
    beyond that. *)
Theorem login_is_accepted_iff (isEmail : jsstring -> bool) (body query params : JsValue) :
  validateRequest (loginSchema isEmail) body query params = inl tt
  <-> exists o : gmap string JsValue, body = JObj o /\ loginAccepts isEmail o.
Proof.
  unfold loginSchema. rewrite validateRequest_body.
  destruct body as [| | | | | |o];
    try (split; [discriminate|by intros (? & ? & _)]).
  split.
  - intros H. exists o. split; [reflexivity|]. apply loginBody_valid.
    by destruct (status (zObject (loginBodyShape isEmail) ["body"] (JObj o))).
  - intros (o' & [= <-] & Hacc). apply loginBody_valid in Hacc. by rewrite Hacc.
Qed.

Lemma zString_reportsFailure (isEmail : jsstring -> bool) (req : option string)
    (checks : list StringCheck) : reportsFailure (zString isEmail req checks).
Proof.
  intros here v. unfold zString.
  destruct v; try (intros _; eexists; apply list_elem_of_here).
  destruct (runStringChecks isEmail here checks s) as [s' found]. simpl.
  destruct found as [|issue found]; [done|].
  intros _. exists issue. apply list_elem_of_here.
Qed.

Lemma zEnum_reportsFailure (values : list string) (req inv : option string) :
  reportsFailure (zEnum values req inv).
Proof.
  intros here v. unfold zEnum.
  destruct v; try (intros _; eexists; apply list_elem_of_here).
  destruct (bool_decide (s ∈ js <$> values)); simpl; [done|].
  intros _. eexists. apply list_elem_of_here.
Qed.

Lemma zOptional_reportsFailure (inner : Schema) :
  reportsFailure inner -> reportsFailure (zOptional inner).
Proof.
  intros Hinner here v. unfold zOptional.
  destruct v; try apply Hinner. simpl. done.
Qed.

Lemma signupBodyShape_reportsFailure (isEmail : jsstring -> bool) :
  Forall (fun entry => reportsFailure entry.2) (signupBodyShape isEmail).
Proof.
  unfold signupBodyShape.
  repeat (apply Forall_cons; split;
          [first [apply zString_reportsFailure | apply zEnum_reportsFailure
                 | apply zOptional_reportsFailure, zString_reportsFailure]|]).
  apply Forall_nil_2.
Qed.

Lemma signupBody_keeps_issues (isEmail : jsstring -> bool) (body : gmap string JsValue)
    (issue : ZodIssue) :
  issue ∈ (parseShape (signupBodyShape isEmail) ["body"] body).2 ->
  issue ∈ issues (signupBody isEmail ["body"] (JObj body)).
Proof.
  unfold signupBody, zRefine, zObject.
  destruct (parseShape (signupBodyShape isEmail) ["body"] body) as [[st obj] found].
  simpl. intros Hin.
  destruct st; simpl; try done;
    destruct (churchSelectionRule (JObj obj)); simpl; try done;
    apply elem_of_app; by left.
Qed.

(** X15. Signup validation does not stop at the first bad field.
    Whatever the rest of the body holds, every field whose own check
    turns its value down is named in the violations: the request is
    refused and one of the issues carries the path of that field. *)
Theorem signup_reports_every_invalid_field
    (isEmail : jsstring -> bool) (body : gmap string JsValue) (query params : JsValue)
    (key : string) (f : Schema) :
  (key, f) ∈ signupBodyShape isEmail ->
  status (f ["body"; key] (getField body key)) <> valid ->
  exists (found : list ZodIssue) (issue : ZodIssue),
    validateRequest (signupSchema isEmail) (JObj body) query params = inr found
    /\ issue ∈ found
    /\ path issue = ["body"; key].
Proof.
  intros Hentry Hbad.
  pose proof (signupBodyShape_reportsFailure isEmail) as Hreports.
  pose proof (signupBodyShape_emitsHere isEmail) as Hemits.
  rewrite Forall_forall in Hreports, Hemits.
  destruct (Hreports _ Hentry _ _ Hbad) as [issue Hissue].
  pose proof (Hemits _ Hentry _ _ _ Hissue) as Hpath. simpl in *.
  assert (issue ∈ issues (signupBody isEmail ["body"] (JObj body))) as Hin.
  { apply signupBody_keeps_issues. apply parseShape_issues.
    exists (key, f). split; done. }
  assert (status (signupBody isEmail ["body"] (JObj body)) <> valid) as Hstatus.
  { rewrite signupBody_valid, parseShape_valid, Forall_forall.
    intros [Hall _]. apply Hbad. exact (Hall _ Hentry). }
  rewrite validateRequest_signup. simpl.
  exists (issues (signupBody isEmail ["body"] (JObj body))), issue.
  destruct (status (signupBody isEmail ["body"] (JObj body))); done.
Qed.

Lemma signup_reports_every_invalid_field_witness :
  exists (found : list ZodIssue) (issue : ZodIssue),
    validateRequest (signupSchema anyEmail) (JObj pastorOnly) JUndefined JUndefined
    = inr found
    /\ issue ∈ found
    /\ path issue = ["body"; "password"].
Proof.
  apply (signup_reports_every_invalid_field anyEmail pastorOnly JUndefined JUndefined
           "password"
           (zString anyEmail (Some "Password is required")
              [CheckMin 8 "Password must be at least 8 characters long"])).
  - unfold signupBodyShape. do 3 apply list_elem_of_further. apply list_elem_of_here.
  - vm_compute. discriminate.
Defined.

(** ** The global error handler *)

Lemma appErrorStatus_400 : appErrorStatus 400 = "fail".
Proof. reflexivity. Qed.

Lemma appErrorStatus_401 : appErrorStatus 401 = "fail".
Proof. reflexivity. Qed.

(** X16. [AppError] calls a code of the 400s a failure and a code of
    the 500s an error: the [status] it derives from the decimal
    spelling of the code is "fail" for 400 to 499 and "error" for 500
    to 599. *)
Theorem app_error_status_by_class (code : Z) :
  (400 <= code <= 499 -> appErrorStatus code = "fail")
  /\ (500 <= code <= 599 -> appErrorStatus code = "error").
Proof.
  assert (forall base expected,
             forallb (fun k => bool_decide (appErrorStatus (base + Z.of_nat k) = expected))
                     (seq 0 100) = true ->
             base <= code <= base + 99 -> appErrorStatus code = expected) as Hrange.
  { intros base expected Hall Hcode.
    rewrite forallb_forall in Hall.
    assert (In (Z.to_nat (code - base)) (seq 0 100)) as Hin by (apply in_seq; lia).
    apply Hall in Hin. apply bool_decide_eq_true in Hin.
    replace (base + Z.of_nat (Z.to_nat (code - base))) with code in Hin by lia.
    exact Hin. }
  split; intros Hcode.
  - apply (Hrange 400); [vm_compute; reflexivity|lia].
  - apply (Hrange 500); [vm_compute; reflexivity|lia].
Qed.

Lemma app_error_status_by_class_witness :
  appErrorStatus 404 = "fail" /\ appErrorStatus 500 = "error".
Proof.
  split.
  - apply (proj1 (app_error_status_by_class 404)). lia.
  - apply (proj2 (app_error_status_by_class 500)). lia.
Defined.

(** X17. The status code of an error response depends on the error
    alone, not on the environment: in production and in development it
    is the code of the [AppError], 400 for a validation, cast or
    duplicate-key error, 401 for an error named after the token
    library's two classes, and 500 for anything else. *)
Theorem error_status_by_kind (err : ServerError) (w : World) :
  sent w = None ->
  statusOf (snd (respondToError err w)) = Some (errorStatusCode err).
Proof.
  intros Hsent. unfold respondToError, sendErrorProd, sendErrorDev, statusOf,
    res_status_json.
  destruct (isProduction w); destruct err as [e d|found|p v m|ms m|q m|name m];
    simpl; rewrite ?Hsent; try reflexivity.
  all: destruct (bool_decide (name = "JsonWebTokenError")); simpl;
    rewrite ?Hsent; try reflexivity;
    destruct (bool_decide (name = "TokenExpiredError")); simpl;
    rewrite ?Hsent; reflexivity.
Qed.

Lemma error_status_by_kind_witness :
  statusOf (snd (respondToError (ErrNamed "TypeError" "x is undefined")
                   (freshWorld sampleChurches)))
  = Some 500.
Proof.
  apply (error_status_by_kind (ErrNamed "TypeError" "x is undefined")
           (freshWorld sampleChurches)).
  reflexivity.
Defined.

(** X18. In production the message of an error the handler does not
    recognise never leaves the server: the response to such an error is
    500 with the fixed text, whatever the error says. *)
Theorem production_hides_unrecognised_errors (name msg : string) (w : World) :
  sent w = None ->
  isProduction w = true ->
  name <> "JsonWebTokenError" ->
  name <> "TokenExpiredError" ->
  sent (snd (respondToError (ErrNamed name msg) w))
  = Some {| res_status := 500;
            res_body := JObj {[ "status" := JStr (js "error");
                                "message" := JStr (js "Something went very wrong!") ]} |}.
Proof.
  intros Hsent Hprod Hjwt Hexp.
  unfold respondToError, sendErrorProd, processError. rewrite Hprod.
  rewrite !bool_decide_eq_false_2 by done. simpl.
  unfold res_status_json. by rewrite Hsent.
Qed.

Lemma production_hides_unrecognised_errors_witness :
  sent (snd (respondToError (ErrNamed "MongoServerError" "connection pool closed")
               (freshWorld sampleChurches)))
  = Some {| res_status := 500;
            res_body := JObj {[ "status" := JStr (js "error");
                                "message" := JStr (js "Something went very wrong!") ]} |}.
Proof.
  apply (production_hides_unrecognised_errors
           "MongoServerError" "connection pool closed" (freshWorld sampleChurches));
    [reflexivity|reflexivity|discriminate|discriminate].
Defined.

(** On the errors a thrown handler leaves behind, the handler of the
    routes above and the full handler agree. *)
Lemma respondToError_thrown (e : Exn) (name : string) (w : World) :
  name <> "JsonWebTokenError" ->
  name <> "TokenExpiredError" ->
  exnMessage e <> EmptyString ->
  respondToError (ErrNamed name (exnMessage e)) w = globalErrorHandler e w.
Proof.
  intros Hjwt Hexp Hmsg.
  unfold respondToError, globalErrorHandler, sendErrorProd, sendErrorDev, processError.
  rewrite !bool_decide_eq_false_2 by done. simpl.
  unfold orElse. rewrite bool_decide_eq_false_2 by done.
  destruct (isProduction w); reflexivity.
Qed.

(** X19. In production a request refused by [validateRequest] is
    answered 400 with status "fail" and one message that spells out
    every issue, path and text, joined by semicolons, and with nothing
    else.  The body has no [errors] member: the handler looks for it
    beside [details], and the helper put it inside. *)
Theorem zod_error_response (found : list ZodIssue) (w : World) :
  sent w = None ->
  isProduction w = true ->
  sent (snd (respondToError (ErrZod found) w))
  = Some {| res_status := 400;
            res_body :=
              JObj {[ "status" := JStr (js "fail");
                      "message" :=
                        JStr (js ("Invalid input data: " +:+
                                  String.concat "; "
                                    ((fun el => String.concat "." (path el) +:+ " - "
                                                +:+ issueMessage el) <$> found))) ]} |}.
Proof.
  intros Hsent Hprod.
  unfold respondToError, sendErrorProd, processError. rewrite Hprod. simpl.
  unfold res_status_json. by rewrite Hsent.
Qed.

Lemma zod_error_response_witness :
  sent (snd (respondToError (ErrZod [affiliationIssue]) (freshWorld sampleChurches)))
  = Some {| res_status := 400;
            res_body :=
              JObj {[ "status" := JStr (js "fail");
                      "message" :=
                        JStr (js ("Invalid input data: body.churchSelection - "
                                  +:+ "Church selection is required for pastors and IT.")) ]} |}.
Proof.
  apply (zod_error_response [affiliationIssue] (freshWorld sampleChurches));
    reflexivity.
Defined.

(** X20. For the store's cast, validation and duplicate-key errors and
    for the errors named after the token library's classes, the helper
    of the handler composes a message of its own, and the production
    response does not carry it: spreading the helper's [AppError] over
    the processed error copies the code and the status and leaves the
    message of the original error in place. *)
Theorem helper_message_is_not_sent (err : ServerError) (w : World) :
  sent w = None ->
  isProduction w = true ->
  match err with
  | ErrCast _ _ _ | ErrValidation _ _ | ErrDuplicateKey _ _ => True
  | ErrNamed name _ => name = "JsonWebTokenError" \/ name = "TokenExpiredError"
  | ErrApp _ _ | ErrZod _ => False
  end ->
  sent (snd (respondToError err w))
  = Some {| res_status := errorStatusCode err;
            res_body :=
              JObj {[ "status" := JStr (js "fail");
                      "message" :=
                        JStr (js (orElse (errorMessageOf err)
                                    "An unknown error occurred")) ]} |}.
Proof.
  intros Hsent Hprod Hkind.
  unfold respondToError, sendErrorProd, res_status_json. rewrite Hprod.
  destruct err as [e d|found|p v m|ms m|q m|name m]; try done; simpl;
    try (rewrite Hsent; reflexivity).
  destruct Hkind as [-> | ->]; simpl; rewrite Hsent; reflexivity.
Qed.

Lemma helper_message_is_not_sent_witness :
  sent (snd (respondToError
               (ErrCast "_id" "abc"
                  "Cast to ObjectId failed for value abc at path _id for model Church")
               (freshWorld sampleChurches)))
  = Some {| res_status := 400;
            res_body :=
              JObj {[ "status" := JStr (js "fail");
                      "message" :=
                        JStr (js "Cast to ObjectId failed for value abc at path _id for model Church") ]} |}.
Proof.
  apply (helper_message_is_not_sent
           (ErrCast "_id" "abc"
              "Cast to ObjectId failed for value abc at path _id for model Church")
           (freshWorld sampleChurches)).
  - reflexivity.
  - reflexivity.
  - exact I.
Defined.

(** ** Deleting a church *)



(** ** The current user *)

Lemma definedMembers_of_user (idText mail : jsstring) :
  definedMembers
    {[ "id" := JStr idText; "firstName" := JUndefined; "lastName" := JUndefined;
       "email" := JStr mail; "avatar" := JUndefined ]}
  = {[ "id" := JStr idText; "email" := JStr mail ]}.
Proof.
  unfold definedMembers.
  rewrite map_filter_insert_True by done.
  rewrite map_filter_insert_False by (simpl; congruence).
  rewrite delete_id by done.
  rewrite map_filter_insert_False by (simpl; congruence).
  rewrite delete_id by done.
  rewrite map_filter_insert_True by done.
  rewrite map_filter_singleton_False by (simpl; congruence).
  by rewrite insert_empty.
Qed.

(** X22. [GET /auth/me] shows the id and the stored email of the user
    the token belongs to, and nothing else: the first name, last name
    and avatar the handler names are read off an object that has only
    an id and an email, and do not reach the response. *)
Theorem me_shows_id_and_email_only
    (verify : jsstring -> VerifyResult) (castObjectId : JsValue -> option ObjectId)
    (users : gmap ObjectId User) (authorization : option jsstring) (u : ReqUser)
    (w : World) :
  fst (authenticateUser verify castObjectId users authorization) = Proceed u ->
  sent w = None ->
  exists user : User,
    users !! id u = Some user
    /\ sent (me_route verify castObjectId users authorization w)
       = Some {| res_status := 200;
                 res_body :=
                   JObj {[ "status" := JStr (js "success");
                           "data" :=
                             JObj {[ "user" :=
                                       JObj {[ "id" := JStr (objectIdHex (id u));
                                               "email" := JStr (email user) ]} ]} ]} |}.
Proof.
  intros Hauth Hsent.
  destruct (authenticateUser_proceeds _ _ _ _ _ Hauth)
    as (token & decoded & user & _ & _ & _ & _ & _ & Huser & Hemail).
  exists user. split; [exact Huser|].
  unfold me_route. rewrite Hauth. unfold getMe, bind, ret, res_status_json.
  rewrite Hsent. simpl. rewrite definedMembers_of_user, Hemail. reflexivity.
Qed.

Lemma me_shows_id_and_email_only_witness :
  exists user : User,
    sampleUsers !! 1%N = Some user
    /\ sent (me_route sampleVerify castNumericId sampleUsers
               (Some (js "Bearer alice-token")) (freshWorld sampleChurches))
       = Some {| res_status := 200;
                 res_body :=
                   JObj {[ "status" := JStr (js "success");
                           "data" :=
                             JObj {[ "user" :=
                                       JObj {[ "id" := JStr (objectIdHex 1%N);
                                               "email" := JStr (email user) ]} ]} ]} |}.
Proof.
  apply (me_shows_id_and_email_only
           sampleVerify castNumericId sampleUsers (Some (js "Bearer alice-token"))
           {| id := 1%N; user_email := js "alice@example.org" |}
           (freshWorld sampleChurches)).
  - vm_compute. reflexivity.
  - reflexivity.
Defined.

(** ** Church bodies *)

Lemma church_verdict (shape : list (string * Schema)) (o : gmap string JsValue) :
  ChurchValidation.validateRequest (zObject shape) (JObj o)
  = match (parseShape shape [] o).1.1 with
    | valid => inl tt
    | dirty | aborted => inr (parseShape shape [] o).2
    end.
Proof.
  unfold ChurchValidation.validateRequest, zObject.
  destruct (parseShape shape [] o) as [[st obj] found]. simpl. by destruct st.
Qed.

Lemma church_verdict_valid (shape : list (string * Schema)) (o : gmap string JsValue) :
  ChurchValidation.validateRequest (zObject shape) (JObj o) = inl tt
  <-> Forall (fun entry => status (entry.2 [entry.1] (getField o entry.1)) = valid) shape.
Proof.
  rewrite church_verdict, <- (parseShape_valid shape [] o).
  destruct ((parseShape shape [] o).1.1); split; done.
Qed.

Lemma church_verdict_object (shape : list (string * Schema)) (body : JsValue) :
  ChurchValidation.validateRequest (zObject shape) body = inl tt ->
  exists o, body = JObj o.
Proof. destruct body; try discriminate. intros _. by eexists. Qed.

Lemma zOptional_valid (f : Schema) (here : list string) (v : JsValue) :
  status (zOptional f here v) = valid <-> v = JUndefined \/ status (f here v) = valid.
Proof.
  destruct v; simpl; split; auto; intros [?|?]; done.
Qed.

Lemma partial_valid (shape : list (string * Schema)) (o : gmap string JsValue) :
  Forall (fun entry => status (entry.2 [entry.1] (getField o entry.1)) = valid)
         (partial shape)
  <-> Forall (fun entry => getField o entry.1 = JUndefined
                           \/ status (entry.2 [entry.1] (getField o entry.1)) = valid)
             shape.
Proof.
  unfold partial. rewrite Forall_fmap. apply Forall_iff. intros [key f]. simpl.
  apply zOptional_valid.
Qed.

(** X23. An update body is accepted exactly when every field of the
    creation schema that the body supplies passes the check that
    creation applies to it; a field the body leaves out is not looked
    at.  The relaxation stops at the top: a supplied [principal] or
    [securities] must still be complete. *)
Theorem church_update_checks_supplied_fields
    (isUrl : jsstring -> bool) (o : gmap string JsValue) :
  ChurchValidation.validateRequest (ChurchValidation.updateChurchSchema isUrl) (JObj o)
  = inl tt
  <-> forall (key : string) (f : Schema),
        (key, f) ∈ ChurchValidation.createChurchShape isUrl ->
        getField o key = JUndefined \/ status (f [key] (getField o key)) = valid.
Proof.
  unfold ChurchValidation.updateChurchSchema.
  rewrite church_verdict_valid, partial_valid, Forall_forall. split.
  - intros Hall key f Hin. exact (Hall (key, f) Hin).
  - intros Hall [key f] Hin. exact (Hall key f Hin).
Qed.

(** X24. Whatever body [POST /churches] accepts, [PATCH /churches/:id]
    accepts too. *)
Theorem church_create_implies_update (isUrl : jsstring -> bool) (body : JsValue) :
  ChurchValidation.validateRequest (ChurchValidation.createChurchSchema isUrl) body
  = inl tt ->
  ChurchValidation.validateRequest (ChurchValidation.updateChurchSchema isUrl) body
  = inl tt.
Proof.
  intros Hcreate.
  destruct (church_verdict_object _ _ Hcreate) as [o ->].
  unfold ChurchValidation.createChurchSchema, ChurchValidation.updateChurchSchema in *.
  rewrite church_verdict_valid in Hcreate.
  rewrite church_verdict_valid, partial_valid.
  eapply Forall_impl; [exact Hcreate|]. intros entry Hvalid. by right.
Qed.

Lemma church_create_implies_update_witness :
  ChurchValidation.validateRequest (ChurchValidation.updateChurchSchema httpsUrl)
    (JObj fullChurchBody) = inl tt.
Proof.
  apply (church_create_implies_update httpsUrl (JObj fullChurchBody)).
  vm_compute. reflexivity.
Defined.

(** X25. Leaving fields out of an update body that is accepted gives a
    body that is accepted; in particular the empty object is, whenever
    any body is. *)
Theorem church_update_closed_under_removal
    (isUrl : jsstring -> bool) (o o' : gmap string JsValue) :
  o' ⊆ o ->
  ChurchValidation.validateRequest (ChurchValidation.updateChurchSchema isUrl) (JObj o)
  = inl tt ->
  ChurchValidation.validateRequest (ChurchValidation.updateChurchSchema isUrl) (JObj o')
  = inl tt.
Proof.
  intros Hsub. unfold ChurchValidation.updateChurchSchema.
  rewrite !church_verdict_valid, !partial_valid.
  intros Hall. eapply Forall_impl; [exact Hall|]. intros [key f]. simpl.
  unfold getField. destruct (o' !! key) as [v|] eqn:Hkey; [|by left].
  by rewrite (lookup_weaken _ _ _ _ Hkey Hsub).
Qed.

Lemma church_update_closed_under_removal_witness :
  ChurchValidation.validateRequest (ChurchValidation.updateChurchSchema httpsUrl)
    (JObj galleryOnly) = inl tt.
Proof.
  apply (church_update_closed_under_removal httpsUrl nameAndGallery galleryOnly).
  - apply insert_subseteq. reflexivity.
  - vm_compute. reflexivity.
Defined.

Lemma array_fields_of_church (isUrl : jsstring -> bool) (key : string) :
  key ∈ churchArrayFields ->
  exists (element : Schema) (msg : string),
    (key, zArray element (Some (1%nat, msg))) ∈ ChurchValidation.createChurchShape isUrl.
Proof.
  unfold churchArrayFields, ChurchValidation.createChurchShape.
  rewrite !elem_of_cons.
  intros [->|[->|[->|[->|[->|H%elem_of_nil]]]]]; [| | | | |done];
    do 2 eexists.
  - do 5 apply list_elem_of_further. apply list_elem_of_here.
  - do 7 apply list_elem_of_further. apply list_elem_of_here.
  - do 8 apply list_elem_of_further. apply list_elem_of_here.
  - do 9 apply list_elem_of_further. apply list_elem_of_here.
  - do 10 apply list_elem_of_further. apply list_elem_of_here.
Qed.

Lemma church_rejects (shape : list (string * Schema)) (o : gmap string JsValue)
    (key : string) (f : Schema) (issue : ZodIssue) :
  (key, f) ∈ shape ->
  status (f [key] (getField o key)) <> valid ->
  issue ∈ issues (f [key] (getField o key)) ->
  exists found,
    ChurchValidation.validateRequest (zObject shape) (JObj o) = inr found
    /\ issue ∈ found.
Proof.
  intros Hin Hbad Hissue.
  assert ((parseShape shape [] o).1.1 <> valid) as Hstatus.
  { rewrite parseShape_valid, Forall_forall. intros Hall. apply Hbad.
    exact (Hall _ Hin). }
  exists (parseShape shape [] o).2. split.
  - rewrite church_verdict. by destruct ((parseShape shape [] o).1.1).
  - apply parseShape_issues. exists (key, f). split; done.
Qed.

Lemma partial_entry (shape : list (string * Schema)) (key : string) (f : Schema) :
  (key, f) ∈ shape -> (key, zOptional f) ∈ partial shape.
Proof.
  intros Hin. unfold partial. apply list_elem_of_fmap. by exists (key, f).
Qed.

(** X26. The five lists of a church body may be left out of an update
    but may never be sent empty: on creation and on update alike, an
    empty [banner], [oldServices], [liveServices], [gallery] or [songs]
    is refused with a too-small issue at that field. *)
Theorem church_lists_are_never_empty
    (isUrl : jsstring -> bool) (o : gmap string JsValue) (key : string) :
  key ∈ churchArrayFields ->
  getField o key = JArr [] ->
  exists (onCreate onUpdate : list ZodIssue) (issue : ZodIssue),
    ChurchValidation.validateRequest (ChurchValidation.createChurchSchema isUrl) (JObj o)
    = inr onCreate
    /\ ChurchValidation.validateRequest (ChurchValidation.updateChurchSchema isUrl) (JObj o)
       = inr onUpdate
    /\ issue ∈ onCreate /\ issue ∈ onUpdate
    /\ code issue = too_small /\ path issue = [key].
Proof.
  intros Hkey Hempty.
  destruct (array_fields_of_church isUrl key Hkey) as (element & msg & Hin).
  set (issue := {| code := too_small; path := [key]; issueMessage := msg |}).
  destruct (church_rejects _ o key _ issue Hin) as (onCreate & Hcreate & HinCreate);
    [rewrite Hempty; simpl; discriminate
    |rewrite Hempty; simpl; apply list_elem_of_here|].
  destruct (church_rejects _ o key _ issue (partial_entry _ _ _ Hin))
    as (onUpdate & Hupdate & HinUpdate);
    [rewrite Hempty; simpl; discriminate
    |rewrite Hempty; simpl; apply list_elem_of_here|].
  exists onCreate, onUpdate, issue.
  repeat split; [exact Hcreate|exact Hupdate|exact HinCreate|exact HinUpdate].
Qed.

Lemma church_lists_are_never_empty_witness :
  exists (onCreate onUpdate : list ZodIssue) (issue : ZodIssue),
    ChurchValidation.validateRequest (ChurchValidation.createChurchSchema httpsUrl)
      (JObj emptyGallery) = inr onCreate
    /\ ChurchValidation.validateRequest (ChurchValidation.updateChurchSchema httpsUrl)
         (JObj emptyGallery) = inr onUpdate
    /\ issue ∈ onCreate /\ issue ∈ onUpdate
    /\ code issue = too_small /\ path issue = ["gallery"].
Proof.
  apply (church_lists_are_never_empty httpsUrl emptyGallery "gallery").
  - unfold churchArrayFields. do 3 apply list_elem_of_further. apply list_elem_of_here.
  - reflexivity.
Defined.

Lemma merged_results_valid (init : ParseStatus) (results : list ParseReturn) :
  foldr (fun r st => mergeStatus (status r) st) init results = valid
  <-> init = valid /\ Forall (fun r => status r = valid) results.
Proof.
  induction results as [|r rest IH]; simpl.
  - split; [intros ->; split; [done|apply Forall_nil_2]|by intros [? _]].
  - rewrite mergeStatus_valid, Forall_cons, IH. tauto.
Qed.

Lemma zArray_element_rejected (element : Schema) (minLength : option (nat * string))
    (here : list string) (items : list JsValue) (i : nat) (v : JsValue)
    (issue : ZodIssue) :
  items !! i = Some v ->
  status (element (here ++ [numberToString (Z.of_nat i)]) v) <> valid ->
  issue ∈ issues (element (here ++ [numberToString (Z.of_nat i)]) v) ->
  status (zArray element minLength here (JArr items)) <> valid
  /\ issue ∈ issues (zArray element minLength here (JArr items)).
Proof.
  intros Hitem Hbad Hissue.
  assert (imap (fun i item => element (here ++ [numberToString (Z.of_nat i)]) item) items
            !! i
          = Some (element (here ++ [numberToString (Z.of_nat i)]) v)) as Hresult.
  { by rewrite list_lookup_imap, Hitem. }
  unfold zArray. simpl. split.
  - rewrite merged_results_valid, Forall_lookup. intros [_ Hall].
    apply Hbad. exact (Hall _ _ Hresult).
  - apply elem_of_app. right. apply list_elem_of_In, in_concat.
    exists (issues (element (here ++ [numberToString (Z.of_nat i)]) v)).
    split; [|by apply list_elem_of_In].
    apply list_elem_of_In, list_elem_of_fmap_2.
    eapply list_elem_of_lookup_2. exact Hresult.
Qed.

Lemma zUrl_rejected (isUrl : jsstring -> bool) (msg : string) (here : list string)
    (v : JsValue) :
  (forall s, v = JStr s -> isUrl s = false) ->
  status (zUrl isUrl msg here v) <> valid
  /\ exists issue, issue ∈ issues (zUrl isUrl msg here v) /\ path issue = here.
Proof.
  intros Hbad. unfold zUrl.
  destruct v; simpl;
    try (split; [discriminate|eexists; split; [apply list_elem_of_here|reflexivity]]).
  rewrite (Hbad s eq_refl). simpl.
  split; [discriminate|eexists; split; [apply list_elem_of_here|reflexivity]].
Qed.

(** X27. Every picture of a [banner] or [gallery] is checked, and one
    that is not a string the URL check accepts is reported under its
    own position: the body is refused on creation and on update, with
    an issue whose path is the field followed by the index. *)
Theorem church_picture_reported_by_index
    (isUrl : jsstring -> bool) (o : gmap string JsValue) (key : string)
    (items : list JsValue) (i : nat) (v : JsValue) :
  key = "banner" \/ key = "gallery" ->
  getField o key = JArr items ->
  items !! i = Some v ->
  (forall s, v = JStr s -> isUrl s = false) ->
  exists (onCreate onUpdate : list ZodIssue) (issue : ZodIssue),
    ChurchValidation.validateRequest (ChurchValidation.createChurchSchema isUrl) (JObj o)
    = inr onCreate
    /\ ChurchValidation.validateRequest (ChurchValidation.updateChurchSchema isUrl) (JObj o)
       = inr onUpdate
    /\ issue ∈ onCreate /\ issue ∈ onUpdate
    /\ path issue = [key; numberToString (Z.of_nat i)].
Proof.
  intros Hkey Hfield Hitem Hbad.
  assert (exists msg listMsg,
            (key, zArray (zUrl isUrl msg) (Some (1%nat, listMsg)))
            ∈ ChurchValidation.createChurchShape isUrl) as (msg & listMsg & Hin).
  { unfold ChurchValidation.createChurchShape.
    destruct Hkey as [->| ->]; do 2 eexists.
    - do 5 apply list_elem_of_further. apply list_elem_of_here.
    - do 9 apply list_elem_of_further. apply list_elem_of_here. }
  destruct (zUrl_rejected isUrl msg ([key] ++ [numberToString (Z.of_nat i)]) v Hbad)
    as (Hstatus & issue & Hissue & Hpath).
  destruct (zArray_element_rejected (zUrl isUrl msg) (Some (1%nat, listMsg)) [key]
              items i v issue Hitem Hstatus Hissue) as [HbadList HinList].
  destruct (church_rejects _ o key _ issue Hin) as (onCreate & Hcreate & HinCreate);
    [rewrite Hfield; exact HbadList|rewrite Hfield; exact HinList|].
  destruct (church_rejects _ o key _ issue (partial_entry _ _ _ Hin))
    as (onUpdate & Hupdate & HinUpdate);
    [rewrite Hfield; exact HbadList|rewrite Hfield; exact HinList|].
  exists onCreate, onUpdate, issue.
  repeat split; [exact Hcreate|exact Hupdate|exact HinCreate|exact HinUpdate|exact Hpath].
Qed.

Lemma church_picture_reported_by_index_witness :
  exists (onCreate onUpdate : list ZodIssue) (issue : ZodIssue),
    ChurchValidation.validateRequest (ChurchValidation.createChurchSchema httpsUrl)
      (JObj twoPictures) = inr onCreate
    /\ ChurchValidation.validateRequest (ChurchValidation.updateChurchSchema httpsUrl)
         (JObj twoPictures) = inr onUpdate
    /\ issue ∈ onCreate /\ issue ∈ onUpdate
    /\ path issue = ["gallery"; "1"].
Proof.
  apply (church_picture_reported_by_index httpsUrl twoPictures "gallery"
           [JStr (js "https://example.org/a.png"); JStr (js "a.png")] 1
           (JStr (js "a.png"))).
  - by right.
  - reflexivity.
  - reflexivity.
  - intros s [= <-]. reflexivity.
Defined.
